(** * UBC Events hub: the feed computation pipeline and its store

    A shallow embedding of [src/pages/Feed.jsx] and [src/pages/Saved.jsx]:
    the personalisation base pool, the popular-tag cloud, the trending
    list, the query matcher, the filtered and sorted visible list, the
    preference-signal handlers of the Feed view and the list of the Saved
    view.  The store behind them ([src/lib/storage.js]) is modelled from
    the written specification in [Module Store]. *)

From Stdlib Require Import ZArith Lia Bool List Ascii String Sorted Permutation.
From stdpp Require Import base decidable option strings gmap.
Import ListNotations.

Open Scope string_scope.
Open Scope Z_scope.

#[local] Arguments String.append !_ _ / : simpl nomatch.

(** ** JavaScript primitives used by the pages *)

Module JS.

(** Strings are sequences of code units below 256 (Latin-1).  White space
    is what [\s] and [String.prototype.trim] recognise in that range. *)
Definition is_ws (c : ascii) : bool :=
  let n := nat_of_ascii c in
  ((9 <=? n) && (n <=? 13) || (n =? 32) || (n =? 160))%nat.

Definition lower_char (c : ascii) : ascii :=
  let n := nat_of_ascii c in
  if ((65 <=? n) && (n <=? 90))%nat then ascii_of_nat (n + 32)
  else if ((192 <=? n) && (n <=? 222) && negb (n =? 215))%nat
       then ascii_of_nat (n + 32)
       else c.

(** [s.toLowerCase()] *)
Fixpoint toLowerCase (s : string) : string :=
  match s with
  | EmptyString => EmptyString
  | String c s' => String (lower_char c) (toLowerCase s')
  end.

Fixpoint trimStart (s : string) : string :=
  match s with
  | EmptyString => EmptyString
  | String c s' => if is_ws c then trimStart s' else s
  end.

Fixpoint trimEnd (s : string) : string :=
  match s with
  | EmptyString => EmptyString
  | String c s' =>
      match trimEnd s' with
      | EmptyString => if is_ws c then EmptyString else String c EmptyString
      | r => String c r
      end
  end.

(** [s.trim()] *)
Definition trim (s : string) : string := trimEnd (trimStart s).

(** Truthiness of a string value: [!s] holds of the empty string. *)
Definition truthy (s : string) : bool :=
  match s with EmptyString => false | _ => true end.

(** [s.split(/\s+/)]: the pieces between maximal runs of white space, the
    empty pieces at both ends included.  [inws] tells that the character
    before the current one was white space. *)
Fixpoint split_ws_from (inws : bool) (s : string) : list string :=
  match s with
  | EmptyString => [EmptyString]
  | String c s' =>
      if is_ws c then
        if inws then split_ws_from true s'
        else EmptyString :: split_ws_from true s'
      else
        match split_ws_from false s' with
        | t :: ts => String c t :: ts
        | [] => [String c EmptyString]
        end
  end.

Definition split_ws (s : string) : list string := split_ws_from false s.

(** [hay.includes(w)] *)
Fixpoint includes (hay w : string) : bool :=
  if String.prefix w hay then true
  else match hay with
       | EmptyString => false
       | String _ hay' => includes hay' w
       end.

(** [arr.join(sep)]; [undefined] and [null] elements print as nothing. *)
Fixpoint join (sep : string) (l : list (option string)) : string :=
  match l with
  | [] => EmptyString
  | [x] => default EmptyString x
  | x :: l' => default EmptyString x ++ sep ++ join sep l'
  end.

(** [arr.includes(x)] on an array of strings. *)
Definition arr_includes (l : list string) (x : string) : bool :=
  existsb (String.eqb x) l.

(** The numbers a sort comparator can return here: an integer, an
    infinity, or NaN (from [Infinity - Infinity]). *)
Inductive num : Type :=
| Fin (z : Z)
| PInf
| NInf
| NaN.

Definition num_sub (a b : num) : num :=
  match a, b with
  | NaN, _ | _, NaN => NaN
  | Fin x, Fin y => Fin (x - y)
  | PInf, PInf | NInf, NInf => NaN
  | PInf, _ => PInf
  | NInf, _ => NInf
  | Fin _, PInf => NInf
  | Fin _, NInf => PInf
  end.

Definition isFinite (a : num) : bool :=
  match a with Fin _ => true | _ => false end.

(** The comparator's verdict "a goes after b": its result is above zero.
    A NaN result counts as zero. *)
Definition gt0 (a : num) : bool :=
  match a with
  | Fin z => 0 <? z
  | PInf => true
  | NInf | NaN => false
  end.

(** [arr.sort(cmp)].  The language requires the sort to be stable; for a
    comparator that is a total preorder the result is then determined, and
    insertion from the right computes it. *)
Section Sort.
Context {A : Type} (cmp : A -> A -> num).

Fixpoint sort_insert (x : A) (l : list A) : list A :=
  match l with
  | [] => [x]
  | y :: l' => if gt0 (cmp x y) then y :: sort_insert x l' else x :: l
  end.

Fixpoint sort (l : list A) : list A :=
  match l with
  | [] => []
  | x :: l' => sort_insert x (sort l')
  end.
End Sort.

(** [arr.slice(0, n)] *)
Definition slice0 {A : Type} (n : nat) (l : list A) : list A := firstn n l.

End JS.

(** ** The data model *)

Module Event.
Record t : Type := mk {
  id : string;
  title : option string;
  description : option string;
  organizer : option string;
  location : option string;
  level : option string;
  faculty : option string;
  tags : option (list string);
  start : option string
}.
End Event.
Abbreviation Event := Event.t.

Module UserPrefs.
Record t : Type := mk {
  name : string;
  faculty : option string;
  interests : option (list string)
}.
End UserPrefs.
Abbreviation UserPrefs := UserPrefs.t.

Inductive ViewMode : Type := all | personalized.

Inductive SortMode : Type := trending_sort | date_sort.

(** [e.tags || []] *)
Definition tags_or_empty (e : Event) : list string := default [] (Event.tags e).

Definition LEVELS : list string := ["beginner"; "intermediate"; "advanced"].
Definition TAG_CLOUD_LIMIT : nat := 5.
Definition ALLOWED_TAGS : list string :=
  ["hackathon"; "web dev"; "product management"; "data science"; "ai"].

(** [norm = s => String(s || '').toLowerCase().trim()] *)
Definition norm (s : string) : string := JS.trim (JS.toLowerCase s).

(** [!x] and [===] on optional string fields. *)
Definition opt_falsy (o : option string) : bool :=
  match o with
  | Some s => negb (JS.truthy s)
  | None => true
  end.

Definition opt_eqb (a b : option string) : bool :=
  match a, b with
  | Some x, Some y => String.eqb x y
  | None, None => true
  | _, _ => false
  end.

(** ** The Feed page *)

(** The entries of a plain object whose keys are not integer-like, in
    insertion order; [bump n counts] is
    [counts[n] = (counts[n] || 0) + 1]. *)
Fixpoint bump (n : string) (counts : list (string * Z)) : list (string * Z) :=
  match counts with
  | [] => [(n, 1)]
  | (k, v) :: rest =>
      if String.eqb k n then (k, v + 1) :: rest else (k, v) :: bump n rest
  end.

Record CloudEntry : Type := mkCloud { tag : string; count : Z }.

Record TrendEntry : Type := mkTrend { evt : option Event; tcount : Z }.

(** [new Map(pool.map(e => [e.id, e]))]: a later event replaces an earlier
    one with the same id, so [get] finds the last. *)
Definition Map_has (pool : list Event) (i : string) : bool :=
  existsb (fun e => String.eqb (Event.id e) i) pool.

Definition Map_get (pool : list Event) (i : string) : option Event :=
  List.find (fun e => String.eqb (Event.id e) i) (rev pool).

(** The order of the extended numbers that [dateOrInfinity] produces. *)
Definition num_le (a b : JS.num) : Prop :=
  match a, b with
  | JS.Fin x, JS.Fin y => x <= y
  | JS.NaN, _ | _, JS.NaN => False
  | JS.NInf, _ => True
  | _, JS.PInf => True
  | _, _ => False
  end.

Definition num_eqb (a b : JS.num) : bool :=
  match a, b with
  | JS.Fin x, JS.Fin y => x =? y
  | JS.PInf, JS.PInf | JS.NInf, JS.NInf | JS.NaN, JS.NaN => true
  | _, _ => false
  end.

Section Feed.

(** [new Date(iso).getTime()]: a time value in milliseconds, or nothing
    for an invalid date (NaN). *)
Variable Date_getTime : string -> option Z.

Definition basePool (events : list Event) (prefs : option UserPrefs)
    (viewMode : ViewMode) : list Event :=
  match events with
  | [] => []
  | _ =>
      match viewMode, prefs with
      | personalized, Some p =>
          List.filter
            (fun e =>
               let facultyOk :=
                 opt_falsy (Event.faculty e)
                 || opt_eqb (Event.faculty e) (Some "All")
                 || opt_eqb (Event.faculty e) (UserPrefs.faculty p) in
               let interestOk :=
                 existsb (fun t => JS.arr_includes (default [] (UserPrefs.interests p)) t)
                         (tags_or_empty e) in
               facultyOk && interestOk)
            events
      | _, _ => events
      end
  end.

Definition allowedNorm_has (n : string) : bool :=
  JS.arr_includes (List.map norm ALLOWED_TAGS) n.

(** The counting loops of [tagCloud]. *)
Definition count_tag (counts : list (string * Z)) (t : string)
    : list (string * Z) :=
  let n := norm t in
  if negb (allowedNorm_has n) then counts else bump n counts.

Definition count_event (counts : list (string * Z)) (e : Event)
    : list (string * Z) :=
  fold_left count_tag (tags_or_empty e) counts.

Definition tag_counts (pool : list Event) : list (string * Z) :=
  fold_left count_event pool [].

Definition by_count_desc (a b : string * Z) : JS.num := JS.Fin (snd b - snd a).

Definition canonical_of (normTag : string) : string :=
  match List.find (fun x => String.eqb (norm x) normTag) ALLOWED_TAGS with
  | Some x => if JS.truthy x then x else normTag
  | None => normTag
  end.

Definition tagCloud (pool : list Event) : list CloudEntry :=
  List.map (fun '(normTag, c) => mkCloud (canonical_of normTag) c)
    (JS.slice0 TAG_CLOUD_LIMIT (JS.sort by_count_desc (tag_counts pool))).

(** [counts] is [Object.entries(getSaveCounts() || {})]. *)
Definition trending (pool : list Event) (saveCounts : option (list (string * Z)))
    : list TrendEntry :=
  let counts := default [] saveCounts in
  match pool with
  | [] => []
  | _ =>
      List.map (fun '(i, c) => mkTrend (Map_get pool i) c)
        (JS.slice0 3
           (JS.sort by_count_desc
              (List.filter (fun '(i, c) => (0 <? c) && Map_has pool i) counts)))
  end.

Definition haystack (e : Event) : string :=
  JS.toLowerCase
    (JS.join " "
       ([Event.title e; Event.description e; Event.organizer e;
         Event.location e]
          ++ List.map Some (tags_or_empty e))).

Definition matchesQuery (e : Event) (query : string) : bool :=
  if negb (JS.truthy (JS.trim query)) then true
  else
    let hay := haystack e in
    let words := List.filter JS.truthy (JS.split_ws (JS.toLowerCase query)) in
    forallb (fun w => JS.includes hay w) words.

Definition dateOrInfinity (iso : option string) : JS.num :=
  if opt_falsy iso then JS.PInf
  else
    match iso with
    | Some s =>
        match Date_getTime s with
        | Some t => JS.Fin t
        | None => JS.PInf
        end
    | None => JS.PInf
    end.

Definition by_date (a b : Event) : JS.num :=
  JS.num_sub (dateOrInfinity (Event.start a)) (dateOrInfinity (Event.start b)).

Definition has01 (savedSet : list string) (i : string) : Z :=
  if JS.arr_includes savedSet i then 1 else 0.

Definition by_saved_then_date (savedSet : list string) (a b : Event) : JS.num :=
  let savedDiff := has01 savedSet (Event.id b) - has01 savedSet (Event.id a) in
  if negb (savedDiff =? 0) then JS.Fin savedDiff else by_date a b.

(** The list before sorting: level, selected tags, search. *)
Definition withSearch (pool : list Event) (level : string) (q : string)
    (selectedTags : list string) : list Event :=
  let withLevel :=
    List.filter
      (fun e => String.eqb level "all" || opt_eqb (Event.level e) (Some level))
      pool in
  let selectedNorm := List.map norm selectedTags in
  let withTags :=
    match selectedTags with
    | [] => withLevel
    | _ =>
        List.filter
          (fun e =>
             existsb (fun t => JS.arr_includes selectedNorm (norm t))
                     (tags_or_empty e))
          withLevel
    end in
  List.filter (fun e => matchesQuery e q) withTags.

Definition filtered (pool : list Event) (level : string) (sort : SortMode)
    (q : string) (selectedTags : list string) (savedIds : list string)
    : list Event :=
  let ws := withSearch pool level q selectedTags in
  match sort with
  | date_sort => JS.sort by_date ws
  | trending_sort => JS.sort (by_saved_then_date savedIds) ws
  end.

(** Ascending by start time, a missing start time last. *)
Definition date_le (a b : Event) : Prop :=
  num_le (dateOrInfinity (Event.start a)) (dateOrInfinity (Event.start b)).

(** Saved before unsaved, then ascending by start time. *)
Definition trend_le (savedIds : list string) (a b : Event) : Prop :=
  let sv e := JS.arr_includes savedIds (Event.id e) in
  (sv a = true /\ sv b = false) \/ (sv a = sv b /\ date_le a b).

(** The event has a start time, and one that parses. *)
Definition has_start_time (e : Event) : bool :=
  match Event.start e with
  | Some s => JS.truthy s && bool_decide (is_Some (Date_getTime s))
  | None => false
  end.

End Feed.

(** ** The order by start time, read off the events themselves *)

(** The start time of an event in milliseconds: what [Date_getTime] makes
    of its [start] field; nothing when the field is absent or empty or
    does not parse. *)
Definition start_time (Date_getTime : string -> option Z) (e : Event)
    : option Z :=
  match Event.start e with
  | Some s => if JS.truthy s then Date_getTime s else None
  | None => None
  end.

(** Earlier or equal start time; no start time counts as later than any. *)
Definition time_le (a b : option Z) : Prop :=
  match a, b with
  | Some x, Some y => x <= y
  | _, None => True
  | None, Some _ => False
  end.

Definition time_eqb (a b : option Z) : bool :=
  match a, b with
  | Some x, Some y => x =? y
  | None, None => true
  | _, _ => false
  end.

Definition by_start (Date_getTime : string -> option Z) (a b : Event) : Prop :=
  time_le (start_time Date_getTime a) (start_time Date_getTime b).

(** Saved before unsaved; within the same saved status, by start time. *)
Definition saved_then_start (Date_getTime : string -> option Z)
    (savedIds : list string) (a b : Event) : Prop :=
  let sv e := JS.arr_includes savedIds (Event.id e) in
  (sv a = true /\ sv b = false)
  \/ (sv a = sv b /\ by_start Date_getTime a b).


(** "x is not placed after y" by a comparator. *)
Definition not_after {A : Type} (cmp : A -> A -> JS.num) (x y : A) : Prop :=
  JS.gt0 (cmp x y) = false.

(** *** The preference signals of the Feed view *)

(** The view state the handlers touch. *)
Record View : Type := mkView {
  prefs : option UserPrefs;
  viewMode : ViewMode
}.

(** The initial state: [useState(() => getUserPrefs())] and
    [useState(() => getUserPrefs() ? 'personalized' : 'all')]. *)
Definition View_init (stored : option UserPrefs) : View :=
  mkView stored (match stored with Some _ => personalized | None => all end).

(** A [userprefs-updated] event object with its optional [detail]. *)
Record CustomEvent : Type := mkCustomEvent { detail : option UserPrefs }.

(** [onPrefsUpdated(e)]; [stored] is what [getUserPrefs()] returns. *)
Definition onPrefsUpdated (stored : option UserPrefs) (e : option CustomEvent)
    (v : View) : View :=
  let newPrefs :=
    match e with
    | Some (mkCustomEvent (Some d)) => Some d
    | _ => stored
    end in
  mkView newPrefs
    (match newPrefs, viewMode v with
     | Some _, all => personalized
     | _, m => m
     end).

(** [onStorage(e)]: only the preferences are read again. *)
Definition onStorage (stored : option UserPrefs) (e : option unit) (v : View)
    : View :=
  match e with
  | None => v
  | Some _ => mkView stored (viewMode v)
  end.

(** The View chips: [setViewMode('all')], [setViewMode('personalized')]. *)
Definition setViewMode (m : ViewMode) (v : View) : View := mkView (prefs v) m.

(** What can happen to a mounted Feed view, with the stored preferences
    at that moment where a handler reads them. *)
Inductive Signal : Type :=
| PrefsUpdated (stored : option UserPrefs) (e : option CustomEvent)
| StorageChanged (stored : option UserPrefs) (e : option unit)
| ChipClicked (m : ViewMode).

Definition View_step (v : View) (s : Signal) : View :=
  match s with
  | PrefsUpdated stored e => onPrefsUpdated stored e v
  | StorageChanged stored e => onStorage stored e v
  | ChipClicked m => setViewMode m v
  end.

Definition View_run (v : View) (l : list Signal) : View := fold_left View_step l v.

(** *** The catalogs of the two pages *)

(** Feed: [setEvents([...custom, ...fileEvents])] with
    [custom = getCustomEvents() || []]. *)
Definition Feed_events (custom : option (list Event)) (fileEvents : list Event)
    : list Event :=
  (default [] custom ++ fileEvents)%list.

(** Saved: [all.filter(e => savedSet.has(e.id))] with [all] the result of
    [loadEvents()]. *)
Definition Saved_events (all : list Event) (savedIds : list string)
    : list Event :=
  List.filter (fun e => JS.arr_includes savedIds (Event.id e)) all.

(** ** The preference and save store *)

Module Store.

(** Modelled from the spec: the store of [src/lib/storage.js], which the
    pages import ([getSavedIds], [getSaveCounts], [toggleSaveId]).
    SavedSet is a set of event ids; SaveCounts maps an id to an integer
    counter, an id without an entry counting as 0. *)
Record t : Type := mk {
  savedSet : gset string;
  saveCounts : gmap string Z
}.

Definition empty : t := mk ∅ ∅.

Definition getSavedIds (s : t) : list string := elements (savedSet s).

Definition isSaved (s : t) (i : string) : bool := bool_decide (i ∈ savedSet s).

Definition count (s : t) (i : string) : Z := default 0 (saveCounts s !! i).

(** Modelled from the spec: [toggleSaved(id)] flips membership in
    SavedSet and adjusts SaveCounts for that id: toggling save on
    increments by 1, toggling off decrements by 1 with a floor at 0. *)
Definition toggleSaved (i : string) (s : t) : t :=
  if isSaved s i
  then mk (savedSet s ∖ {[i]}) (<[i := Z.max 0 (count s i - 1)]> (saveCounts s))
  else mk ({[i]} ∪ savedSet s) (<[i := count s i + 1]> (saveCounts s)).

(** No counter is negative, and a saved id has been counted. *)
Definition consistent (s : t) : Prop :=
  forall i, 0 <= count s i /\ (isSaved s i = true -> 1 <= count s i).

(** The states a sequence of toggles leads to from [s0]. *)
Inductive reachable (s0 : t) : t -> Prop :=
| reach_init : reachable s0 s0
| reach_toggle s i : reachable s0 s -> reachable s0 (toggleSaved i s).

End Store.

(** ** The query matcher in the words of the specification *)

(** The white-space separated tokens of a string: its maximal runs of
    characters that are not white space.  [cur] is the run being read. *)
Fixpoint tokens_from (cur s : string) : list string :=
  match s with
  | EmptyString => if JS.truthy cur then [cur] else []
  | String c s' =>
      if JS.is_ws c then
        if JS.truthy cur then cur :: tokens_from EmptyString s'
        else tokens_from EmptyString s'
      else tokens_from (cur ++ String c EmptyString) s'
  end.

Definition tokens (s : string) : list string := tokens_from EmptyString s.

(** [cur] put in front of the first piece of a split. *)
Definition glue (cur : string) (l : list string) : list string :=
  match l with
  | t :: ts => (cur ++ t) :: ts
  | [] => [cur]
  end.

Definition is_substring (w hay : string) : Prop :=
  exists pre post, hay = pre ++ w ++ post.

(** Title, description, organizer, location and the tags, an absent field
    as the empty string, put together with single spaces. *)
Definition searchable_text (e : Event) : string :=
  String.concat " "
    ([default "" (Event.title e); default "" (Event.description e);
      default "" (Event.organizer e); default "" (Event.location e)]
       ++ tags_or_empty e).

Definition matches_spec (e : Event) (q : string) : Prop :=
  forall w, In w (List.map JS.toLowerCase (tokens q)) ->
            is_substring w (JS.toLowerCase (searchable_text e)).

(** Empty or white space only. *)
Fixpoint blank (s : string) : bool :=
  match s with
  | EmptyString => true
  | String c s' => JS.is_ws c && blank s'
  end.

(** ** The scenario of the specification *)

Definition scenario_events : list Event :=
  [ Event.mk "1" (Some "AI Hackathon") None None None None None
      (Some ["ai"; "hackathon"]) (Some "2025-01-10");
    Event.mk "2" (Some "Design Talk") None None None None None
      (Some ["design"]) None ].

(** An event carrying the tag "AI" and a profile interested in "ai". *)
Definition upper_tag_event : Event :=
  Event.mk "1" (Some "AI Night") None None None None (Some "All")
    (Some ["AI"]) None.

Definition science_ai_prefs : UserPrefs :=
  UserPrefs.mk "Sam" (Some "Science") (Some ["ai"; "web dev"]).

(** An id appears in a list of events. *)
Definition appears (i : string) (l : list Event) : Prop :=
  exists e, In e l /\ Event.id e = i.

(** A signal that announces a change of preferences, as opposed to a
    click on a View chip. *)
Definition is_prefs_signal (s : Signal) : Prop :=
  match s with
  | ChipClicked _ => False
  | _ => True
  end.

Definition is_storage_signal (s : Signal) : Prop :=
  match s with
  | StorageChanged _ _ => True
  | _ => False
  end.

(** ** The tag cloud in the words of the specification *)

(** Every tag occurrence of the pool, in pool order. *)
Definition pool_tags (pool : list Event) : list string :=
  flat_map tags_or_empty pool.

(** The number of tag occurrences in the pool that normalize to [t]. *)
Definition occurrences (pool : list Event) (t : string) : Z :=
  Z.of_nat (length (List.filter (fun x => String.eqb (norm x) t) (pool_tags pool))).

(** The allow-listed tag occurrences of the pool, normalized. *)
Definition allowed_stream (pool : list Event) : list string :=
  List.filter allowedNorm_has (List.map norm (pool_tags pool)).

(** The distinct elements of a list in the order of their first
    occurrence. *)
Fixpoint first_seen (l : list string) : list string :=
  match l with
  | [] => []
  | x :: r => x :: List.filter (fun y => negb (String.eqb y x)) (first_seen r)
  end.

(** How often [k] occurs in [l], and the distinct elements of [l] with
    these numbers. *)
Definition occ (k : string) (l : list string) : Z :=
  Z.of_nat (length (List.filter (String.eqb k) l)).

Definition counted (l : list string) : list (string * Z) :=
  List.map (fun k => (k, occ k l)) (first_seen l).

(** The position of a tag in the allow-list. *)
Fixpoint index_of (t : string) (l : list string) : nat :=
  match l with
  | [] => 0
  | x :: r => if String.eqb x t then 0 else S (index_of t r)
  end.

(** "Entries with equal count are ordered by the allow-list's own declared
    order". *)
Definition ties_by_allowlist (cloud : list CloudEntry) : Prop :=
  forall i j a b,
    (i < j)%nat -> nth_error cloud i = Some a -> nth_error cloud j = Some b ->
    count a = count b ->
    (index_of (tag a) ALLOWED_TAGS < index_of (tag b) ALLOWED_TAGS)%nat.

(** One event tagged "ai" and then "hackathon". *)
Definition ai_then_hackathon : Event :=
  Event.mk "7" (Some "AI Hack Night") None None None None None
    (Some ["ai"; "hackathon"]) None.

(** A custom event, known to [getCustomEvents()] only. *)
Definition custom_event : Event :=
  Event.mk "c1" (Some "Study Jam") None None None None None
    (Some ["web dev"]) None.

(** ** The rest of the Feed page *)

(** The selection state of the Feed view. *)
Module Selection.
Record t : Type := mk {
  viewMode : ViewMode;
  level : string;
  sort : SortMode;
  q : string;
  selectedTags : list string
}.
End Selection.

(** [toggleTag(tag)]: the updater given to [setSelectedTags]. *)
Definition toggleTag (tag : string) (prev : list string) : list string :=
  if JS.arr_includes prev tag
  then List.filter (fun t => negb (String.eqb t tag)) prev
  else (prev ++ [tag])%list.

(** [clearAllFilters()] *)
Definition clearAllFilters (st : Selection.t) : Selection.t :=
  Selection.mk (Selection.viewMode st) "all" trending_sort "" [].

(** The list the page renders: [filtered] over [basePool]. *)
Definition visible (Date_getTime : string -> option Z) (events : list Event)
    (prefs : option UserPrefs) (st : Selection.t) (savedIds : list string)
    : list Event :=
  filtered Date_getTime
    (basePool events prefs (Selection.viewMode st))
    (Selection.level st) (Selection.sort st) (Selection.q st)
    (Selection.selectedTags st) savedIds.

(** The outcome of [loadEvents()]: the events of the file, or a
    rejection.  The rejection value is [undefined] or [null], or a value
    with its optional [message] (an error object; a value without the
    property has none). *)
Inductive LoadResult : Type :=
| Loaded (fileEvents : list Event)
| Failed (message : option string)
| FailedNullish.

(** The load effect of the Feed: the [events] and [error] states after
    the promise has settled (they start as [[]] and ['']).  On a nullish
    rejection value the catch handler itself throws at [e.message], so
    no error is set; [finally] still ends the loading. *)
Definition Feed_load (custom : option (list Event)) (r : LoadResult)
    : list Event * string :=
  match r with
  | Loaded fileEvents => (Feed_events custom fileEvents, "")
  | Failed message =>
      ([], match message with
           | Some m => if JS.truthy m then m else "Failed to load events"
           | None => "Failed to load events"
           end)
  | FailedNullish => ([], "")
  end.

(** The three status cards of the Feed: "Loading events", "Failed to load
    events" and "No matches", each shown or not. *)
Definition Feed_cards (loading : bool) (error : string) (shown : list Event)
    : bool * bool * bool :=
  (loading,
   JS.truthy error,
   negb loading && negb (JS.truthy error)
   && match shown with [] => true | _ => false end).

(** The separator of the heading, the middle dot U+00B7. *)
Definition MIDDLE_DOT : string := String (ascii_of_nat 183) EmptyString.

(** [heading]; nothing when the memo throws, which [prefs.interests.join]
    does for preferences without interests.  An absent faculty prints as
    "undefined". *)
Definition heading (viewMode : ViewMode) (prefs : option UserPrefs)
    : option string :=
  match viewMode with
  | personalized =>
      match prefs with
      | None => Some "Personalized (set your profile in Onboarding)"
      | Some p =>
          match UserPrefs.interests p with
          | None => None
          | Some l =>
              Some ("Personalized for "
                    ++ default "undefined" (UserPrefs.faculty p)
                    ++ " " ++ MIDDLE_DOT ++ " "
                    ++ JS.join ", " (List.map Some l))
          end
      end
  | all => Some "All events"
  end.

(** What a render of the Feed shows, as far as modelled: the heading, the
    status cards and the visible list; nothing when the render throws. *)
Definition Feed_render (Date_getTime : string -> option Z)
    (events : list Event) (prefs : option UserPrefs) (st : Selection.t)
    (savedIds : list string) (loading : bool) (error : string)
    : option (string * (bool * bool * bool) * list Event) :=
  match heading (Selection.viewMode st) prefs with
  | None => None
  | Some h =>
      let shown := visible Date_getTime events prefs st savedIds in
      Some (h, Feed_cards loading error shown, shown)
  end.

(** The entries of the save counts that [trending] ranks. *)
Definition trending_candidates (pool : list Event) (counts : list (string * Z))
    : list (string * Z) :=
  List.filter (fun '(i, c) => (0 <? c) && Map_has pool i) counts.

(** ** The Onboarding page *)

Definition FACULTIES : list string :=
  ["Sauder (Business)"; "Applied Science / Engineering"; "Science"; "Arts";
   "Land & Food Systems"; "Forestry"; "Computer Science";
   "Medicine & Health Sciences"; "Education"; "Law"].

Definition MIN_INTERESTS : nat := 2.
Definition MAX_INTERESTS : nat := 5.

Module Form.
Record touched_t : Type := mkTouched {
  t_name : bool;
  t_faculty : bool;
  t_interests : bool
}.

Record t : Type := mk {
  name : string;
  faculty : string;
  interests : list string;
  touched : touched_t;
  error : string
}.
End Form.

(** The state at mount, after the effect that loads existing
    preferences. *)
Definition Form_mount (existing : option UserPrefs) : Form.t :=
  match existing with
  | Some p =>
      Form.mk (UserPrefs.name p)
        (default "" (UserPrefs.faculty p))
        (default [] (UserPrefs.interests p))
        (Form.mkTouched false false false) ""
  | None => Form.mk "" "" [] (Form.mkTouched false false false) ""
  end.

(** [toggleInterest(tag)] *)
Definition toggleInterest (tag : string) (f : Form.t) : Form.t :=
  let prev := Form.interests f in
  if JS.arr_includes prev tag then
    Form.mk (Form.name f) (Form.faculty f)
      (List.filter (fun t => negb (String.eqb t tag)) prev)
      (Form.touched f) ""
  else if (MAX_INTERESTS <=? length prev)%nat then
    Form.mk (Form.name f) (Form.faculty f) prev (Form.touched f)
      "You can select up to 5 interests."
  else
    Form.mk (Form.name f) (Form.faculty f) (prev ++ [tag])%list
      (Form.touched f) "".

(** [valid] *)
Definition valid (f : Form.t) : bool :=
  (0 <? String.length (JS.trim (Form.name f)))%nat
  && JS.truthy (Form.faculty f)
  && (MIN_INTERESTS <=? length (Form.interests f))%nat.

(** [handleSaveAndContinue()]: the new form state and the payload given to
    [saveUserPrefs], if any. *)
Definition handleSaveAndContinue (f : Form.t) : Form.t * option UserPrefs :=
  let f' :=
    Form.mk (Form.name f) (Form.faculty f) (Form.interests f)
      (Form.mkTouched true true true) (Form.error f) in
  if negb (valid f) then (f', None)
  else
    (f', Some (UserPrefs.mk (JS.trim (Form.name f)) (Some (Form.faculty f))
                 (Some (Form.interests f)))).

(** [handleReset()] *)
Definition handleReset (f : Form.t) : Form.t :=
  Form.mk "" "" [] (Form.mkTouched false false false) "".

(** What the user can do on the page: type a name, leave the name field,
    click the chip of the [i]-th faculty, click an interest chip, reset,
    save. *)
Inductive FormAction : Type :=
| TypeName (s : string)
| BlurName
| PickFaculty (i : nat)
| ToggleInterest (tag : string)
| Reset
| Save.

Definition Form_step (f : Form.t) (a : FormAction) : Form.t * option UserPrefs :=
  match a with
  | TypeName s =>
      (Form.mk s (Form.faculty f) (Form.interests f) (Form.touched f)
         (Form.error f), None)
  | BlurName =>
      (Form.mk (Form.name f) (Form.faculty f) (Form.interests f)
         (Form.mkTouched true (Form.t_faculty (Form.touched f))
            (Form.t_interests (Form.touched f)))
         (Form.error f), None)
  | PickFaculty i =>
      match nth_error FACULTIES i with
      | Some fac =>
          (Form.mk (Form.name f) fac (Form.interests f)
             (Form.mkTouched (Form.t_name (Form.touched f)) true
                (Form.t_interests (Form.touched f)))
             (Form.error f), None)
      | None => (f, None)
      end
  | ToggleInterest tag => (toggleInterest tag f, None)
  | Reset => (handleReset f, None)
  | Save => handleSaveAndContinue f
  end.

(** The form after a sequence of actions, with the payloads saved on the
    way, oldest first. *)
Fixpoint Form_run (f : Form.t) (l : list FormAction)
    : Form.t * list UserPrefs :=
  match l with
  | [] => (f, [])
  | a :: l' =>
      let '(f1, saved) := Form_step f a in
      let '(f2, rest) := Form_run f1 l' in
      (f2, match saved with Some p => p :: rest | None => rest end)
  end.

(** ** The image of an event card *)

(** The values an image field of an event can hold: a falsy value that is
    not a string ([undefined], [null], [false], [0]), a string, an object
    (arrays included) with what its [url] and [src] properties hold, or
    another truthy value (a number, [true]). *)
Inductive JSVal : Type :=
| VFalsy
| VStr (s : string)
| VObj (url src : JSVal)
| VOther.

(** The fields of an event that [resolveImageFromEvent] reads; [media] is
    absent or holds its [image] and [imageUrl]; [images], [photos] and
    [attachments] hold the elements when they are arrays. *)
Module ImageFields.
Record t : Type := mk {
  image : JSVal;
  imageUrl : JSVal;
  image_url : JSVal;
  img : JSVal;
  photo : JSVal;
  media : option (JSVal * JSVal);
  images : option (list JSVal);
  photos : option (list JSVal);
  attachments : option (list JSVal);
  cover : JSVal
}.
End ImageFields.

(** [Array.isArray(a) && a[0]] *)
Definition first_of (a : option (list JSVal)) : JSVal :=
  match a with
  | Some (x :: _) => x
  | _ => VFalsy
  end.

(** [Array.isArray(a) && a[0]?.url] *)
Definition first_url_of (a : option (list JSVal)) : JSVal :=
  match a with
  | Some (VObj url _ :: _) => url
  | _ => VFalsy
  end.

Definition candidates (e : ImageFields.t) : list JSVal :=
  [ ImageFields.image e; ImageFields.imageUrl e; ImageFields.image_url e;
    ImageFields.img e; ImageFields.photo e;
    match ImageFields.media e with Some (i, _) => i | None => VFalsy end;
    match ImageFields.media e with Some (_, u) => u | None => VFalsy end;
    first_of (ImageFields.images e);
    first_of (ImageFields.photos e);
    first_url_of (ImageFields.attachments e);
    ImageFields.cover e ].

(** [typeof v === 'string' && v.trim()] *)
Definition nonblank_string (v : JSVal) : option string :=
  match v with
  | VStr s => if JS.truthy (JS.trim s) then Some s else None
  | _ => None
  end.

(** [/^https?:\/\//i.test(s) || /^data:/i.test(s)] *)
Definition is_absolute (s : string) : bool :=
  String.prefix "http://" (JS.toLowerCase s)
  || String.prefix "https://" (JS.toLowerCase s)
  || String.prefix "data:" (JS.toLowerCase s).

Section EventCard.

(** [window.location.protocol], [window.location.origin], and
    [new URL(rel, base).toString()], which gives nothing when the
    constructor throws. *)
Variable location_protocol : string.
Variable location_origin : string.
Variable URL_toString : string -> string -> option string.

(** The placeholder image, a data URL. *)
Variable placeholder_svg : string.
Definition PLACEHOLDER : string := "data:image/svg+xml;utf8," ++ placeholder_svg.

Definition normalizeUrl (url : string) : string :=
  let trimmed := JS.trim url in
  if is_absolute trimmed then trimmed
  else if String.prefix "//" trimmed then location_protocol ++ trimmed
  else if String.prefix "/" trimmed then location_origin ++ trimmed
  else
    match URL_toString trimmed location_origin with
    | Some u => u
    | None => url
    end.

(** The loop over the candidates. *)
Fixpoint resolve_loop (cs : list JSVal) : option string :=
  match cs with
  | [] => None
  | c :: rest =>
      match c with
      | VFalsy => resolve_loop rest
      | VStr s =>
          if negb (JS.truthy s) then resolve_loop rest
          else if JS.truthy (JS.trim s) then Some (normalizeUrl s)
          else resolve_loop rest
      | VObj url src =>
          match nonblank_string url with
          | Some s => Some (normalizeUrl s)
          | None =>
              match nonblank_string src with
              | Some s => Some (normalizeUrl s)
              | None => resolve_loop rest
              end
          end
      | VOther => resolve_loop rest
      end
  end.

Definition resolveImageFromEvent (e : option ImageFields.t) : option string :=
  match e with
  | None => None
  | Some e => resolve_loop (candidates e)
  end.

(** The image source after the effect: [resolved || PLACEHOLDER]. *)
Definition imgSrc_of (e : option ImageFields.t) : string :=
  match resolveImageFromEvent e with
  | Some u => if JS.truthy u then u else PLACEHOLDER
  | None => PLACEHOLDER
  end.

(** [handleImgError()] *)
Definition handleImgError (imgSrc : string) : string :=
  if negb (String.eqb imgSrc PLACEHOLDER) then PLACEHOLDER else imgSrc.

End EventCard.

(** The string a candidate contributes, if it is usable. *)
Definition usable (c : JSVal) : option string :=
  match c with
  | VStr s => nonblank_string (VStr s)
  | VObj url src =>
      match nonblank_string url with
      | Some s => Some s
      | None => nonblank_string src
      end
  | _ => None
  end.

(** What the Onboarding form keeps true of its interests and faculty. *)
Definition Form_ok (f : Form.t) : Prop :=
  (length (Form.interests f) <= MAX_INTERESTS)%nat
  /\ List.NoDup (Form.interests f)
  /\ (Form.faculty f = "" \/ In (Form.faculty f) FACULTIES).

(** What a saved payload must look like. *)
Definition payload_ok (p : UserPrefs) : Prop :=
  UserPrefs.name p <> ""
  /\ JS.trim (UserPrefs.name p) = UserPrefs.name p
  /\ (exists fac, UserPrefs.faculty p = Some fac /\ In fac FACULTIES)
  /\ (exists l, UserPrefs.interests p = Some l
                /\ (MIN_INTERESTS <= length l <= MAX_INTERESTS)%nat
                /\ List.NoDup l).

(** ** Facts about the stable sort *)

Section SortFacts.
Context {A : Type} (cmp : A -> A -> JS.num).

Local Abbreviation not_after := (not_after cmp).

Lemma sort_insert_perm x l : Permutation (JS.sort_insert cmp x l) (x :: l).
Proof.
  induction l as [|y l IH]; simpl; [reflexivity|].
  destruct (JS.gt0 (cmp x y)); [|reflexivity].
  rewrite IH. apply perm_swap.
Qed.

Lemma sort_perm l : Permutation (JS.sort cmp l) l.
Proof.
  induction l as [|x l IH]; simpl; [reflexivity|].
  rewrite sort_insert_perm. now constructor.
Qed.

Lemma sort_In x l : In x (JS.sort cmp l) <-> In x l.
Proof.
  split; apply Permutation_in; [|symmetry]; apply sort_perm.
Qed.

(** Stability: a class of mutually tied elements keeps its order. *)
Lemma sort_insert_filter (P : A -> bool) x l :
  (forall a b, P a = true -> P b = true -> not_after a b) ->
  List.filter P (JS.sort_insert cmp x l) = List.filter P (x :: l).
Proof.
  intros tied. induction l as [|y l IH]; simpl; [reflexivity|].
  destruct (JS.gt0 (cmp x y)) eqn:G; simpl; [|reflexivity].
  rewrite IH. simpl.
  destruct (P x) eqn:Px, (P y) eqn:Py; try reflexivity.
  specialize (tied x y Px Py). unfold not_after in tied. congruence.
Qed.

Lemma sort_filter (P : A -> bool) l :
  (forall a b, P a = true -> P b = true -> not_after a b) ->
  List.filter P (JS.sort cmp l) = List.filter P l.
Proof.
  intros tied. induction l as [|x l IH]; simpl; [reflexivity|].
  rewrite sort_insert_filter by assumption. simpl. now rewrite IH.
Qed.

Hypothesis asym : forall x y, JS.gt0 (cmp x y) = true -> not_after y x.
Hypothesis trans : forall x y z, not_after x y -> not_after y z -> not_after x z.

Lemma sort_insert_sorted x l :
  StronglySorted not_after l -> StronglySorted not_after (JS.sort_insert cmp x l).
Proof.
  induction 1 as [|y l Hs IH Hy]; simpl.
  - repeat constructor.
  - destruct (JS.gt0 (cmp x y)) eqn:G.
    + constructor; [exact IH|].
      rewrite List.Forall_forall. intros z Hz.
      apply (Permutation_in _ (sort_insert_perm x l)) in Hz.
      destruct Hz as [<-|Hz]; [now apply asym|].
      rewrite List.Forall_forall in Hy. now apply Hy.
    + constructor; [now constructor|].
      constructor; [exact G|].
      eapply List.Forall_impl; [|exact Hy]. intros z. now apply trans.
Qed.

Lemma sort_sorted l : StronglySorted not_after (JS.sort cmp l).
Proof.
  induction l as [|x l IH]; simpl; [constructor|].
  now apply sort_insert_sorted.
Qed.
End SortFacts.

(** A sorted list splits into the elements of a downward-closed class
    followed by the others. *)
Lemma sorted_split {A : Type} (R : A -> A -> Prop) (P : A -> bool) (l : list A) :
  (forall a b, R a b -> P b = true -> P a = true) ->
  StronglySorted R l ->
  l = (List.filter P l ++ List.filter (fun a => negb (P a)) l)%list.
Proof.
  intros down. induction 1 as [|x l Hs IH Hx]; simpl; [reflexivity|].
  destruct (P x) eqn:Px; simpl; [now rewrite <- IH|].
  assert (Hnone : Forall (fun a => P a = false) l).
  { eapply List.Forall_impl; [|exact Hx]. intros a Ha.
    destruct (P a) eqn:Pa; [|reflexivity].
    rewrite (down _ _ Ha Pa) in Px. discriminate. }
  clear IH Hx Hs.
  assert (E : List.filter P l = [] /\ List.filter (fun a => negb (P a)) l = l).
  { induction Hnone as [|a l Ha _ [IH1 IH2]]; simpl; [now split|].
    rewrite Ha. simpl. now rewrite IH1, IH2. }
  destruct E as [-> ->]. reflexivity.
Qed.

Lemma StronglySorted_impl {A : Type} (R S : A -> A -> Prop) (l : list A) :
  (forall a b, R a b -> S a b) -> StronglySorted R l -> StronglySorted S l.
Proof.
  intros RS. induction 1; constructor; [assumption|].
  eapply List.Forall_impl; [|eassumption]. exact (fun b => RS _ b).
Qed.

Lemma StronglySorted_filter_in {A : Type} (R S : A -> A -> Prop) (P : A -> bool)
    (l : list A) :
  (forall a b, P a = true -> P b = true -> R a b -> S a b) ->
  StronglySorted R l -> StronglySorted S (List.filter P l).
Proof.
  intros RS. induction 1 as [|x l Hs IH Hx]; simpl; [constructor|].
  destruct (P x) eqn:Px; [|exact IH].
  constructor; [exact IH|].
  rewrite List.Forall_forall in *. intros b Hb.
  apply filter_In in Hb as [Hb Pb]. now apply RS, Hx.
Qed.

(** ** The visible list *)

Section Visible.
Variable Date_getTime : string -> option Z.

Local Abbreviation key := (fun e : Event => dateOrInfinity Date_getTime (Event.start e)).

Local Abbreviation date_le := (date_le Date_getTime).
Local Abbreviation trend_le := (trend_le Date_getTime).
Local Abbreviation has_start_time := (has_start_time Date_getTime).

Lemma dateOrInfinity_cases iso :
  (exists t, dateOrInfinity Date_getTime iso = JS.Fin t)
  \/ dateOrInfinity Date_getTime iso = JS.PInf.
Proof.
  unfold dateOrInfinity. destruct (opt_falsy iso); [now right|].
  destruct iso as [s|]; [|now right].
  destruct (Date_getTime s) as [t|]; [left; now exists t|now right].
Qed.

Lemma dateOrInfinity_absent : dateOrInfinity Date_getTime None = JS.PInf.
Proof. reflexivity. Qed.

Lemma dateOrInfinity_unparseable s :
  Date_getTime s = None -> dateOrInfinity Date_getTime (Some s) = JS.PInf.
Proof. intros H. unfold dateOrInfinity. simpl. rewrite H. now destruct s. Qed.

Lemma by_date_not_after a b :
  not_after (by_date Date_getTime) a b <-> date_le a b.
Proof.
  unfold not_after, by_date, date_le.
  destruct (dateOrInfinity_cases (Event.start a)) as [[x ->]| ->],
           (dateOrInfinity_cases (Event.start b)) as [[y ->]| ->]; simpl;
    rewrite ?Z.ltb_ge; intuition (try lia; try discriminate).
Qed.

Lemma date_le_total a b : date_le a b \/ date_le b a.
Proof.
  unfold date_le.
  destruct (dateOrInfinity_cases (Event.start a)) as [[x ->]| ->],
           (dateOrInfinity_cases (Event.start b)) as [[y ->]| ->]; simpl;
    try tauto; lia.
Qed.

Lemma date_le_trans a b c : date_le a b -> date_le b c -> date_le a c.
Proof.
  unfold date_le.
  destruct (dateOrInfinity_cases (Event.start a)) as [[x ->]| ->],
           (dateOrInfinity_cases (Event.start b)) as [[y ->]| ->],
           (dateOrInfinity_cases (Event.start c)) as [[z ->]| ->]; simpl;
    try tauto; lia.
Qed.

Lemma date_le_tied a b k :
  num_eqb (key a) k = true -> num_eqb (key b) k = true -> date_le a b.
Proof.
  unfold date_le.
  destruct (dateOrInfinity_cases (Event.start a)) as [[x ->]| ->],
           (dateOrInfinity_cases (Event.start b)) as [[y ->]| ->];
    destruct k; simpl; try discriminate; try tauto; lia.
Qed.

Lemma date_le_finite a b :
  date_le a b -> JS.isFinite (key b) = true -> JS.isFinite (key a) = true.
Proof.
  unfold date_le.
  destruct (dateOrInfinity_cases (Event.start a)) as [[x ->]| ->],
           (dateOrInfinity_cases (Event.start b)) as [[y ->]| ->]; simpl;
    try tauto; discriminate.
Qed.

Lemma by_saved_not_after savedIds a b :
  not_after (by_saved_then_date Date_getTime savedIds) a b
  <-> trend_le savedIds a b.
Proof.
  unfold trend_le. rewrite <- by_date_not_after.
  unfold not_after, by_saved_then_date, has01.
  destruct (JS.arr_includes savedIds (Event.id a)),
           (JS.arr_includes savedIds (Event.id b)); simpl;
    intuition (try discriminate; try congruence).
Qed.

Lemma trend_le_trans savedIds a b c :
  trend_le savedIds a b -> trend_le savedIds b c -> trend_le savedIds a c.
Proof.
  unfold trend_le.
  intros [[A1 A2]|[A1 A2]] [[B1 B2]|[B1 B2]]; try congruence.
  - left. split; congruence.
  - left. split; congruence.
  - right. split; [congruence|]. eapply date_le_trans; eassumption.
Qed.

Lemma trend_le_total savedIds a b :
  trend_le savedIds a b \/ trend_le savedIds b a.
Proof.
  unfold trend_le.
  destruct (JS.arr_includes savedIds (Event.id a)),
           (JS.arr_includes savedIds (Event.id b));
    destruct (date_le_total a b); tauto.
Qed.

Lemma sorted_by_date l :
  StronglySorted date_le (JS.sort (by_date Date_getTime) l).
Proof.
  eapply StronglySorted_impl; [apply by_date_not_after|].
  apply sort_sorted.
  - intros x y G. apply by_date_not_after.
    destruct (date_le_total x y) as [H|H]; [|exact H].
    apply by_date_not_after in H. unfold not_after in H. congruence.
  - intros x y z. rewrite !by_date_not_after. apply date_le_trans.
Qed.

Lemma sorted_by_saved savedIds l :
  StronglySorted (trend_le savedIds)
    (JS.sort (by_saved_then_date Date_getTime savedIds) l).
Proof.
  eapply StronglySorted_impl; [apply by_saved_not_after|].
  apply sort_sorted.
  - intros x y G. apply by_saved_not_after.
    destruct (trend_le_total savedIds x y) as [H|H]; [|exact H].
    apply by_saved_not_after in H. unfold not_after in H. congruence.
  - intros x y z. rewrite !by_saved_not_after. apply trend_le_trans.
Qed.

Lemma isFinite_has_start_time e : JS.isFinite (key e) = has_start_time e.
Proof.
  unfold has_start_time, dateOrInfinity. destruct (Event.start e) as [s|]; simpl; [|reflexivity].
  destruct s; simpl; [reflexivity|].
  destruct (Date_getTime _); reflexivity.
Qed.

Lemma sort_date_split l :
  let r := JS.sort (by_date Date_getTime) l in
  r = (List.filter has_start_time r
         ++ List.filter (fun e => negb (has_start_time e)) r)%list.
Proof.
  intros r. apply (sorted_split date_le); [|apply sorted_by_date].
  intros a b Hab. rewrite <- !isFinite_has_start_time. now apply date_le_finite.
Qed.

Lemma key_start_time e :
  key e = match start_time Date_getTime e with
          | Some t => JS.Fin t
          | None => JS.PInf
          end.
Proof.
  unfold dateOrInfinity, start_time.
  destruct (Event.start e) as [s|]; simpl; [|reflexivity].
  destruct s; simpl; [reflexivity|]. now destruct (Date_getTime _).
Qed.

Lemma date_le_by_start a b : date_le a b <-> by_start Date_getTime a b.
Proof.
  unfold date_le, by_start. rewrite !key_start_time.
  destruct (start_time Date_getTime a), (start_time Date_getTime b);
    simpl; tauto.
Qed.

Lemma trend_le_saved_then_start savedIds a b :
  trend_le savedIds a b <-> saved_then_start Date_getTime savedIds a b.
Proof.
  unfold trend_le, saved_then_start. now rewrite date_le_by_start.
Qed.

Lemma time_tied a b k :
  time_eqb (start_time Date_getTime a) k = true ->
  time_eqb (start_time Date_getTime b) k = true ->
  date_le a b.
Proof.
  intros Ha Hb. apply date_le_by_start. unfold by_start.
  destruct (start_time Date_getTime a), (start_time Date_getTime b), k;
    simpl in *; try discriminate; try exact I.
  apply Z.eqb_eq in Ha, Hb. lia.
Qed.

(** C5: with sort = date the visible list is ascending by start time, the
    start time being what [Date_getTime] makes of the [start] field;
    every event without a (parseable) start time comes after all events
    that have one, and events with equal start times, or all without one,
    keep the order they had before sorting.  On the two events of the
    scenario the order is 1, 2. *)
Theorem filtered_date_order pool level q selectedTags savedIds :
  let ws := withSearch pool level q selectedTags in
  let r := filtered Date_getTime pool level date_sort q selectedTags savedIds in
  StronglySorted (by_start Date_getTime) r
  /\ r = (List.filter has_start_time r
           ++ List.filter (fun e => negb (has_start_time e)) r)%list
  /\ Permutation r ws
  /\ (forall k : option Z,
        List.filter (fun e => time_eqb (start_time Date_getTime e) k) r
        = List.filter (fun e => time_eqb (start_time Date_getTime e) k) ws)
  /\ List.map Event.id
       (filtered Date_getTime (basePool scenario_events None all)
          "all" date_sort "" [] savedIds)
     = ["1"; "2"].
Proof.
  intros ws r. subst r. unfold filtered. fold ws.
  split.
  { eapply StronglySorted_impl; [|apply sorted_by_date].
    intros a b. apply date_le_by_start. }
  split; [apply sort_date_split|].
  split; [apply sort_perm|].
  split.
  - intros k. apply sort_filter. intros a b Ha Hb.
    apply by_date_not_after. now apply time_tied with k.
  - cbv.
    destruct (Date_getTime _); reflexivity.
Qed.

(** C6: with sort = trending the saved events come first; within the
    same saved status the order is ascending by start time (what
    [Date_getTime] makes of the [start] field), a missing start time
    last; events with the same saved status and start time keep the order
    they had before sorting.  In the scenario, after toggleSaved("2") on
    the empty store the visible order is 2, 1. *)
Theorem filtered_trending_order pool level q selectedTags savedIds :
  let ws := withSearch pool level q selectedTags in
  let r :=
    filtered Date_getTime pool level trending_sort q selectedTags savedIds in
  let sv e := JS.arr_includes savedIds (Event.id e) in
  StronglySorted (saved_then_start Date_getTime savedIds) r
  /\ r = (List.filter sv r ++ List.filter (fun e => negb (sv e)) r)%list
  /\ StronglySorted (by_start Date_getTime) (List.filter sv r)
  /\ StronglySorted (by_start Date_getTime)
       (List.filter (fun e => negb (sv e)) r)
  /\ Permutation r ws
  /\ (forall b (k : option Z),
        List.filter
          (fun e => Bool.eqb (sv e) b
                    && time_eqb (start_time Date_getTime e) k) r
        = List.filter
            (fun e => Bool.eqb (sv e) b
                      && time_eqb (start_time Date_getTime e) k) ws)
  /\ List.map Event.id
       (filtered Date_getTime (basePool scenario_events None all)
          "all" trending_sort "" []
          (Store.getSavedIds (Store.toggleSaved "2" Store.empty)))
     = ["2"; "1"].
Proof.
  intros ws r sv. subst r. unfold filtered. fold ws.
  pose proof (sorted_by_saved savedIds ws) as Hs.
  split.
  { eapply StronglySorted_impl; [|exact Hs].
    intros a b. apply trend_le_saved_then_start. }
  split.
  { apply (sorted_split (trend_le savedIds)); [|exact Hs].
    intros a b [[Ha _]|[Hab _]] Hb; [exact Ha|]. fold (sv a) (sv b) in Hab.
    congruence. }
  split.
  { eapply StronglySorted_filter_in; [|exact Hs].
    intros a b Ha Hb [[_ Hb']|[_ H]]; [|now apply date_le_by_start].
    fold (sv b) in Hb'. congruence. }
  split.
  { eapply StronglySorted_filter_in; [|exact Hs].
    intros a b Ha Hb [[Ha' _]|[_ H]]; [|now apply date_le_by_start].
    fold (sv a) in Ha'. rewrite Ha' in Ha. discriminate. }
  split; [apply sort_perm|].
  split.
  - intros b k. apply sort_filter. intros x y Hx Hy.
    apply andb_prop in Hx as [Hx1 Hx2]. apply andb_prop in Hy as [Hy1 Hy2].
    apply by_saved_not_after. right. split.
    + apply eqb_prop in Hx1, Hy1. fold (sv x) (sv y). congruence.
    + now apply time_tied with k.
  - vm_compute. reflexivity.
Qed.

End Visible.

(** ** The query matcher *)

Section Strings.

Lemma app_empty_r (s : string) : s ++ "" = s.
Proof. induction s; simpl; congruence. Qed.

Lemma app_assoc' (a b c : string) : (a ++ b) ++ c = a ++ b ++ c.
Proof. induction a; simpl; congruence. Qed.

Lemma prefix_app w hay : String.prefix w hay = true <-> exists post, hay = w ++ post.
Proof.
  revert hay. induction w as [|c w IH]; intros hay.
  - split; [intros _; now exists hay|intros _; now destruct hay].
  - destruct hay as [|d hay]; simpl.
    + split; [discriminate|intros [post H]; discriminate].
    + destruct (ascii_dec c d) as [->|ne].
      * rewrite IH. split; intros [post H]; exists post; congruence.
      * split; [discriminate|intros [post H]; congruence].
Qed.

Lemma includes_nil w : JS.includes "" w = String.prefix w "".
Proof.
  change (JS.includes "" w) with (if String.prefix w "" then true else false).
  now destruct (String.prefix w "").
Qed.

Lemma includes_cons d hay w :
  JS.includes (String d hay) w
  = String.prefix w (String d hay) || JS.includes hay w.
Proof.
  change (JS.includes (String d hay) w)
    with (if String.prefix w (String d hay) then true else JS.includes hay w).
  now destruct (String.prefix w (String d hay)).
Qed.

Lemma includes_substring hay w : JS.includes hay w = true <-> is_substring w hay.
Proof.
  unfold is_substring. induction hay as [|d hay IH].
  - rewrite includes_nil, prefix_app. split.
    + intros [post H]. now exists "", post.
    + intros [pre [post H]]. destruct pre; [|discriminate]. now exists post.
  - rewrite includes_cons, orb_true_iff, prefix_app, IH. split.
    + intros [[post H]|[pre [post H]]].
      * now exists "", post.
      * exists (String d pre), post. simpl. congruence.
    + intros [pre [post H]]. destruct pre as [|d' pre]; simpl in H.
      * left. now exists post.
      * right. exists pre, post. congruence.
Qed.

Lemma is_ws_lower c : JS.is_ws (JS.lower_char c) = JS.is_ws c.
Proof. destruct c as [[] [] [] [] [] [] [] []]; reflexivity. Qed.

Lemma toLowerCase_app a b :
  JS.toLowerCase (a ++ b) = JS.toLowerCase a ++ JS.toLowerCase b.
Proof. induction a; simpl; congruence. Qed.

Lemma truthy_lower s : JS.truthy (JS.toLowerCase s) = JS.truthy s.
Proof. now destruct s. Qed.

Lemma tokens_from_lower cur s :
  tokens_from (JS.toLowerCase cur) (JS.toLowerCase s)
  = List.map JS.toLowerCase (tokens_from cur s).
Proof.
  revert cur. induction s as [|c s IH]; intros cur; simpl.
  - rewrite truthy_lower. now destruct (JS.truthy cur).
  - rewrite is_ws_lower, truthy_lower.
    destruct (JS.is_ws c).
    + specialize (IH ""). simpl in IH. rewrite IH.
      now destruct (JS.truthy cur).
    + rewrite <- IH, toLowerCase_app. reflexivity.
Qed.

(** [split(/\s+/).filter(Boolean)] yields the tokens. *)
Lemma split_tokens s :
  (forall cur,
      List.filter JS.truthy (glue cur (JS.split_ws_from false s))
      = tokens_from cur s)
  /\ List.filter JS.truthy (JS.split_ws_from true s) = tokens_from "" s.
Proof.
  induction s as [|c s [IH1 IH2]]; simpl.
  - split; [|reflexivity]. intros cur. now rewrite app_empty_r.
  - destruct (JS.is_ws c) eqn:W.
    + split; [|exact IH2]. intros cur. simpl.
      rewrite app_empty_r, IH2. reflexivity.
    + assert (G : forall cur,
                 glue cur
                   match JS.split_ws_from false s with
                   | [] => [String c ""]
                   | t :: ts => String c t :: ts
                   end
                 = glue (cur ++ String c "") (JS.split_ws_from false s)).
      { intros cur. destruct (JS.split_ws_from false s); simpl;
          [reflexivity|now rewrite app_assoc']. }
      split.
      * intros cur. rewrite G. apply IH1.
      * rewrite <- (IH1 (String c "")).
        change (String c "") with ("" ++ String c "") at 2.
        rewrite <- (G "").
        destruct (JS.split_ws_from false s); reflexivity.
Qed.

Lemma split_ws_tokens s : List.filter JS.truthy (JS.split_ws s) = tokens s.
Proof.
  destruct (split_tokens s) as [H _]. specialize (H "").
  unfold JS.split_ws, tokens. rewrite <- H.
  destruct (JS.split_ws_from false s); reflexivity.
Qed.

Lemma trimEnd_blank s : JS.truthy (JS.trimEnd s) = negb (blank s).
Proof.
  induction s as [|c s IH]; simpl; [reflexivity|].
  destruct (JS.trimEnd s); simpl in *.
  - apply (f_equal negb) in IH. rewrite negb_involutive in IH. rewrite <- IH.
    destruct (JS.is_ws c); reflexivity.
  - apply (f_equal negb) in IH. rewrite negb_involutive in IH. rewrite <- IH.
    now rewrite andb_false_r.
Qed.

Lemma blank_trimStart s : blank (JS.trimStart s) = blank s.
Proof.
  induction s as [|c s IH]; simpl; [reflexivity|].
  destruct (JS.is_ws c) eqn:W; simpl; [exact IH|now rewrite W].
Qed.

Lemma trim_blank s : JS.truthy (JS.trim s) = negb (blank s).
Proof. unfold JS.trim. now rewrite trimEnd_blank, blank_trimStart. Qed.

Lemma tokens_blank s : blank s = true -> tokens s = [].
Proof.
  unfold tokens. induction s as [|c s IH]; simpl; [reflexivity|].
  intros H. apply andb_prop in H as [-> H]. simpl. now apply IH.
Qed.

Lemma join_concat sep l :
  JS.join sep l = String.concat sep (List.map (default "") l).
Proof.
  induction l as [|x l IH]; simpl; [reflexivity|].
  destruct l as [|y l]; [reflexivity|]. now rewrite IH.
Qed.

Lemma haystack_searchable e : haystack e = JS.toLowerCase (searchable_text e).
Proof.
  unfold haystack, searchable_text. rewrite join_concat. do 2 f_equal.
  simpl. do 4 f_equal. induction (tags_or_empty e); simpl; congruence.
Qed.

Lemma matchesQuery_tokens e q :
  matchesQuery e q
  = forallb (fun w => JS.includes (haystack e) w)
            (List.map JS.toLowerCase (tokens q)).
Proof.
  unfold matchesQuery. rewrite trim_blank, negb_involutive.
  rewrite split_ws_tokens. unfold tokens at 1.
  change "" with (JS.toLowerCase "") at 1. rewrite tokens_from_lower.
  fold (tokens q).
  destruct (blank q) eqn:B; [|reflexivity].
  now rewrite tokens_blank.
Qed.

(** C2: [matchesQuery e q] holds exactly when every white-space separated,
    lower-cased token of [q] is a substring of the lower-cased searchable
    text of [e]; it holds of every event when [q] is empty or white space
    only. *)
Theorem matchesQuery_spec e q :
  (matchesQuery e q = true <-> matches_spec e q)
  /\ (blank q = true -> matchesQuery e q = true).
Proof.
  rewrite matchesQuery_tokens. split.
  - rewrite forallb_forall. unfold matches_spec.
    split; intros H w Hw; specialize (H w Hw);
      rewrite haystack_searchable in *; now apply includes_substring.
  - intros B. now rewrite tokens_blank.
Qed.

End Strings.

(** ** Membership helpers *)

Lemma arr_includes_In l x : JS.arr_includes l x = true <-> In x l.
Proof.
  unfold JS.arr_includes. rewrite existsb_exists. split.
  - intros [y [Hy E]]. apply String.eqb_eq in E. now subst.
  - intros H. exists x. split; [exact H|apply String.eqb_refl].
Qed.

Lemma Map_has_appears pool i : Map_has pool i = true <-> appears i pool.
Proof.
  unfold Map_has, appears. rewrite existsb_exists.
  split; intros [e [He E]]; exists e; split; try exact He;
    now apply String.eqb_eq.
Qed.

Lemma Map_get_has pool i :
  Map_has pool i = true ->
  exists e, Map_get pool i = Some e /\ In e pool /\ Event.id e = i.
Proof.
  intros H. apply Map_has_appears in H as [e [He E]]. unfold Map_get.
  destruct (List.find _ (rev pool)) as [e'|] eqn:F.
  - apply find_some in F as [F1 F2]. exists e'. split; [reflexivity|].
    split; [now apply in_rev|now apply String.eqb_eq].
  - exfalso. pose proof (find_none _ _ F e) as N.
    rewrite <- in_rev in N. specialize (N He).
    apply String.eqb_neq in N. contradiction.
Qed.

(** ** The base pool *)

Lemma basePool_empty prefs viewMode : basePool [] prefs viewMode = [].
Proof. reflexivity. Qed.

Lemma basePool_all events prefs : basePool events prefs all = events.
Proof. now destruct events. Qed.

Lemma basePool_no_prefs events viewMode : basePool events None viewMode = events.
Proof. destruct events; [reflexivity|now destruct viewMode]. Qed.

(** What the personalized pool keeps: the faculty test, and a tag that is
    literally one of the interests. *)
Lemma basePool_personalized events p e :
  In e (basePool events (Some p) personalized)
  <-> In e events
      /\ (opt_falsy (Event.faculty e) = true
          \/ Event.faculty e = Some "All"
          \/ Event.faculty e = UserPrefs.faculty p)
      /\ (exists t, In t (tags_or_empty e)
                    /\ In t (default [] (UserPrefs.interests p))).
Proof.
  assert (Eq : forall a b, opt_eqb a b = true <-> a = b).
  { intros [a|] [b|]; simpl; rewrite ?String.eqb_eq;
      split; congruence. }
  destruct events as [|e0 events]; [simpl; tauto|].
  unfold basePool. rewrite filter_In.
  rewrite andb_true_iff, !orb_true_iff, !Eq, existsb_exists.
  setoid_rewrite arr_includes_In. tauto.
Qed.

(** The two base-pool examples of the specification. *)
Example basePool_faculty_mismatch :
  basePool
    [Event.mk "9" None None None None None (Some "Arts") (Some ["ai"]) None]
    (Some (UserPrefs.mk "Sam" (Some "Science") (Some ["ai"]))) personalized
  = [].
Proof. reflexivity. Qed.

Example basePool_all_faculties :
  basePool
    [Event.mk "9" None None None None None (Some "All")
       (Some ["ai"; "design"]) None]
    (Some (UserPrefs.mk "Sam" (Some "Science") (Some ["ai"]))) personalized
  = [Event.mk "9" None None None None None (Some "All")
       (Some ["ai"; "design"]) None].
Proof. reflexivity. Qed.

(** C1: the personalized pool compares tags with the interests as they are
    written.  The event tagged "AI" is open to all faculties and its tag
    normalizes to the interest "ai", yet the pool drops it; tagged "ai" it
    is kept. *)
Theorem basePool_skips_normalization :
  basePool [upper_tag_event] (Some science_ai_prefs) personalized = []
  /\ Event.faculty upper_tag_event = Some "All"
  /\ (exists t i, In t (tags_or_empty upper_tag_event)
                  /\ In i (default [] (UserPrefs.interests science_ai_prefs))
                  /\ norm t = norm i)
  /\ basePool
       [Event.mk "1" (Some "AI Night") None None None None (Some "All")
          (Some ["ai"]) None]
       (Some science_ai_prefs) personalized
     = [Event.mk "1" (Some "AI Night") None None None None (Some "All")
          (Some ["ai"]) None].
Proof.
  split; [reflexivity|]. split; [reflexivity|]. split; [|reflexivity].
  exists "AI", "ai". simpl. auto.
Qed.

(** ** Sorting by count *)

Lemma firstn_In {A : Type} (l : list A) n x : In x (firstn n l) -> In x l.
Proof.
  revert n. induction l as [|y l IH]; intros [|n]; simpl; try tauto.
  intros [H|H]; [now left|right; now apply IH with n].
Qed.

Lemma StronglySorted_firstn {A : Type} (R : A -> A -> Prop) n (l : list A) :
  StronglySorted R l -> StronglySorted R (firstn n l).
Proof.
  intros H. revert n. induction H as [|x l Hs IH Hx]; intros [|n]; simpl;
    try constructor; [apply IH|].
  rewrite List.Forall_forall in *. intros y Hy. apply Hx.
  revert Hy. apply (firstn_In l n).
Qed.

Lemma StronglySorted_map {A B : Type} (R : A -> A -> Prop) (S : B -> B -> Prop)
    (f : A -> B) (l : list A) :
  (forall a b, R a b -> S (f a) (f b)) ->
  StronglySorted R l -> StronglySorted S (List.map f l).
Proof.
  intros RS. induction 1 as [|x l Hs IH Hx]; simpl; constructor; [exact IH|].
  rewrite List.Forall_forall in *. intros y Hy.
  apply in_map_iff in Hy as [a [<- Ha]]. now apply RS, Hx.
Qed.

Lemma by_count_desc_not_after a b :
  not_after by_count_desc a b <-> snd b <= snd a.
Proof. unfold not_after, by_count_desc. simpl. rewrite Z.ltb_ge. lia. Qed.

Lemma sorted_by_count l :
  StronglySorted (fun a b : string * Z => snd b <= snd a)
    (JS.sort by_count_desc l).
Proof.
  eapply StronglySorted_impl; [apply by_count_desc_not_after|].
  apply sort_sorted.
  - intros x y G. apply by_count_desc_not_after.
    unfold by_count_desc in G. simpl in G. apply Z.ltb_lt in G. lia.
  - intros x y z. rewrite !by_count_desc_not_after. lia.
Qed.

(** ** The trending list *)

(** C4: the trending list has at most 3 entries; each is an event of the
    base pool whose id has a save count above 0, shown with that count;
    the entries are in descending order of count; an id that is not in
    the pool yields no entry, and an empty pool yields an empty list. *)
Theorem trending_spec pool saveCounts :
  let tr := trending pool saveCounts in
  (length tr <= 3)%nat
  /\ Forall (fun en =>
               exists e, evt en = Some e /\ In e pool /\ 0 < tcount en
                         /\ In (Event.id e, tcount en) (default [] saveCounts))
            tr
  /\ StronglySorted (fun a b => tcount b <= tcount a) tr
  /\ trending [] saveCounts = [].
Proof.
  intros tr. subst tr. unfold trending.
  set (counts := default [] saveCounts).
  set (kept := List.filter _ counts).
  split; [|split; [|split]]; [| | |reflexivity].
  - destruct pool; [simpl; lia|]. cbv beta iota.
    rewrite length_map. unfold JS.slice0. apply firstn_le_length.
  - destruct pool as [|e0 pool']; [constructor|].
    set (pool := e0 :: pool') in *.
    apply List.Forall_forall. intros en Hen.
    apply in_map_iff in Hen as [[i c] [<- Hic]]. simpl.
    apply firstn_In, sort_In in Hic. unfold kept in Hic.
    apply filter_In in Hic as [Hin Hok].
    apply andb_prop in Hok as [Hc Hhas]. apply Z.ltb_lt in Hc.
    destruct (Map_get_has pool i Hhas) as [e [G [He E]]].
    exists e. subst i. auto.
  - destruct pool as [|e0 pool']; [constructor|].
    eapply StronglySorted_map; [|apply StronglySorted_firstn, sorted_by_count].
    intros [i c] [j d]. simpl. lia.
Qed.

(** ** The store *)

Module StoreFacts.
Import Store.

Lemma isSaved_true s i : isSaved s i = true <-> i ∈ savedSet s.
Proof. unfold isSaved. apply bool_decide_eq_true. Qed.

Lemma isSaved_false s i : isSaved s i = false <-> i ∉ savedSet s.
Proof. unfold isSaved. apply bool_decide_eq_false. Qed.

(** The counter of the toggled id, and of every other id. *)
Lemma count_toggle_same s i :
  count (toggleSaved i s) i
  = if isSaved s i then Z.max 0 (count s i - 1) else count s i + 1.
Proof.
  unfold toggleSaved. destruct (isSaved s i); unfold count at 1; simpl;
    now rewrite lookup_insert_eq.
Qed.

Lemma count_toggle_other s i j : i <> j -> count (toggleSaved i s) j = count s j.
Proof.
  intros ne. unfold toggleSaved. destruct (isSaved s i); unfold count; simpl;
    now rewrite lookup_insert_ne.
Qed.

Lemma isSaved_toggle_same s i : isSaved (toggleSaved i s) i = negb (isSaved s i).
Proof.
  unfold toggleSaved. destruct (isSaved s i) eqn:E; simpl.
  - apply isSaved_false. simpl.
    rewrite elem_of_difference, elem_of_singleton. tauto.
  - apply isSaved_true. simpl.
    rewrite elem_of_union, elem_of_singleton. tauto.
Qed.

Lemma isSaved_toggle_other s i j :
  i <> j -> isSaved (toggleSaved i s) j = isSaved s j.
Proof.
  intros ne. unfold toggleSaved, isSaved.
  destruct (bool_decide (i ∈ savedSet s)); simpl; apply bool_decide_ext.
  - rewrite elem_of_difference, elem_of_singleton. intuition congruence.
  - rewrite elem_of_union, elem_of_singleton. intuition congruence.
Qed.

Lemma consistent_empty : consistent empty.
Proof. intros i. split; [reflexivity|discriminate]. Qed.

Lemma consistent_toggle s i : consistent s -> consistent (toggleSaved i s).
Proof.
  intros C j. destruct (decide (i = j)) as [<-|ne].
  - rewrite isSaved_toggle_same, count_toggle_same.
    destruct (C i) as [C0 C1]. destruct (isSaved s i); simpl.
    + split; [lia|discriminate].
    + split; intros; lia.
  - rewrite isSaved_toggle_other, count_toggle_other by exact ne. apply C.
Qed.

Lemma consistent_reachable s0 s :
  consistent s0 -> reachable s0 s -> consistent s.
Proof. intros C R. induction R; [exact C|now apply consistent_toggle]. Qed.

Lemma nonneg_toggle s i :
  (forall j, 0 <= count s j) -> forall j, 0 <= count (toggleSaved i s) j.
Proof.
  intros N j. destruct (decide (i = j)) as [<-|ne].
  - rewrite count_toggle_same. specialize (N i).
    destruct (isSaved s i); lia.
  - rewrite count_toggle_other by exact ne. apply N.
Qed.

Lemma savedSet_double_toggle s i :
  savedSet (toggleSaved i (toggleSaved i s)) = savedSet s.
Proof.
  unfold toggleSaved at 1. rewrite isSaved_toggle_same.
  unfold toggleSaved. destruct (isSaved s i) eqn:E; simpl.
  - apply isSaved_true in E. apply set_eq. intros x.
    rewrite elem_of_union, elem_of_singleton, elem_of_difference,
      elem_of_singleton.
    destruct (decide (x = i)) as [->|ne]; tauto.
  - apply isSaved_false in E. apply set_eq. intros x.
    rewrite elem_of_difference, elem_of_union, elem_of_singleton.
    destruct (decide (x = i)) as [->|ne]; tauto.
Qed.

Lemma count_double_toggle s i j :
  consistent s -> count (toggleSaved i (toggleSaved i s)) j = count s j.
Proof.
  intros C. destruct (decide (i = j)) as [<-|ne].
  - rewrite count_toggle_same, isSaved_toggle_same, count_toggle_same.
    destruct (C i) as [C0 C1]. destruct (isSaved s i); simpl.
    + specialize (C1 eq_refl). lia.
    + lia.
  - now rewrite !count_toggle_other by exact ne.
Qed.

(** C7: in every state reached by toggles from the empty store, toggling
    an id twice in succession restores the saved set (hence the
    membership of the id) and the counter of the id; no other counter
    moves either. *)
Theorem double_toggle_identity s x :
  reachable empty s ->
  savedSet (toggleSaved x (toggleSaved x s)) = savedSet s
  /\ isSaved (toggleSaved x (toggleSaved x s)) x = isSaved s x
  /\ count (toggleSaved x (toggleSaved x s)) x = count s x
  /\ (forall y, count (toggleSaved x (toggleSaved x s)) y = count s y).
Proof.
  intros R. pose proof (consistent_reachable _ _ consistent_empty R) as C.
  split; [apply savedSet_double_toggle|].
  split; [now rewrite !isSaved_toggle_same, negb_involutive|].
  split; [now apply count_double_toggle|].
  intros y. now apply count_double_toggle.
Qed.

Lemma double_toggle_identity_witness :
  isSaved (toggleSaved "1" (toggleSaved "1"
             (toggleSaved "2" (toggleSaved "1" empty)))) "1"
  = isSaved (toggleSaved "2" (toggleSaved "1" empty)) "1"
  /\ count (toggleSaved "1" (toggleSaved "1"
              (toggleSaved "2" (toggleSaved "1" empty)))) "1"
     = count (toggleSaved "2" (toggleSaved "1" empty)) "1".
Proof.
  destruct (double_toggle_identity
              (toggleSaved "2" (toggleSaved "1" empty)) "1")
    as [_ [H1 [H2 _]]].
  - apply reach_toggle, reach_toggle, reach_init.
  - split; [exact H1|exact H2].
Defined.

(** Outside the reachable states the floor can get in the way: with an
    id saved but never counted, the double toggle leaves its counter
    at 1. *)
Example double_toggle_needs_consistency :
  count (toggleSaved "1" (toggleSaved "1" (mk {["1"]} ∅))) "1" = 1
  /\ count (mk {["1"]} ∅) "1" = 0.
Proof. split; reflexivity. Qed.

(** C8: from any initial state whose counters are all non-negative, every
    state reached by toggles has all counters non-negative; a toggle
    that saves adds 1 to the counter of its id, a toggle that unsaves
    takes 1 off with a floor at 0, and no other counter changes. *)
Theorem counts_never_negative s0 s :
  (forall x, 0 <= count s0 x) ->
  reachable s0 s ->
  (forall x, 0 <= count s x)
  /\ (forall i,
        count (toggleSaved i s) i
        = if isSaved s i then Z.max 0 (count s i - 1) else count s i + 1)
  /\ (forall i, isSaved (toggleSaved i s) i = negb (isSaved s i))
  /\ (forall i x, 0 <= count (toggleSaved i s) x).
Proof.
  intros N R.
  assert (Ns : forall x, 0 <= count s x).
  { induction R; [exact N|now apply nonneg_toggle]. }
  split; [exact Ns|].
  split; [intros i; apply count_toggle_same|].
  split; [intros i; apply isSaved_toggle_same|].
  intros i. now apply nonneg_toggle.
Qed.

Lemma counts_never_negative_witness :
  0 <= count (toggleSaved "1" (toggleSaved "1" empty)) "1"
  /\ 0 <= count (toggleSaved "1" (toggleSaved "1" empty)) "2".
Proof.
  assert (H : forall x, 0 <= count (toggleSaved "1" (toggleSaved "1" empty)) x).
  { refine (proj1 (counts_never_negative empty
                     (toggleSaved "1" (toggleSaved "1" empty)) _ _)).
    - intros x. unfold count. simpl. rewrite lookup_empty. simpl. lia.
    - apply reach_toggle, reach_toggle, reach_init. }
  split; apply H.
Defined.

End StoreFacts.

(** ** The preference signals *)

Lemma onStorage_viewMode stored e v : viewMode (onStorage stored e v) = viewMode v.
Proof. now destruct e. Qed.

Lemma onPrefsUpdated_personalized stored e v :
  viewMode v = personalized ->
  viewMode (onPrefsUpdated stored e v) = personalized.
Proof.
  intros H. unfold onPrefsUpdated. simpl. rewrite H.
  now destruct e as [[[d|]]|], stored.
Qed.

Lemma personalized_kept v l :
  Forall is_prefs_signal l -> viewMode v = personalized ->
  viewMode (View_run v l) = personalized.
Proof.
  intros F. revert v. induction F as [|s l Hs _ IH]; intros v H; [exact H|].
  unfold View_run in *. simpl. apply IH.
  destruct s; simpl in *; [|rewrite onStorage_viewMode|contradiction];
    [now apply onPrefsUpdated_personalized|exact H].
Qed.

Lemma storage_keeps_mode v l :
  Forall is_storage_signal l -> viewMode (View_run v l) = viewMode v.
Proof.
  intros F. revert v. induction F as [|s l Hs _ IH]; intros v; [reflexivity|].
  unfold View_run in *. simpl. rewrite IH.
  destruct s; simpl in *; try contradiction. apply onStorage_viewMode.
Qed.

(** C9, as the handlers have it: an in-process signal takes the new
    preferences from its payload, else from the store; when it finds
    preferences it moves a view in "all" mode to "personalized", whatever
    happened before, and when it finds none it leaves the mode alone; a
    view in "personalized" mode stays so under any sequence of preference
    signals; storage signals from other contexts set the preferences to
    what the store holds and never change the view mode. *)
Theorem prefs_signal_view_mode v stored e l :
  Forall is_prefs_signal l ->
  (viewMode v = all ->
   viewMode (onPrefsUpdated stored e v)
   = match prefs (onPrefsUpdated stored e v) with
     | Some _ => personalized
     | None => all
     end)
  /\ (forall d,
        prefs (onPrefsUpdated stored (Some (mkCustomEvent (Some d))) v) = Some d)
  /\ (viewMode v = personalized -> viewMode (View_run v l) = personalized)
  /\ (Forall is_storage_signal l -> viewMode (View_run v l) = viewMode v)
  /\ (forall ev, viewMode (onStorage stored ev v) = viewMode v)
  /\ prefs (onPrefsUpdated stored (Some (mkCustomEvent None)) v) = stored
  /\ prefs (onPrefsUpdated stored None v) = stored
  /\ (forall ev, prefs (onStorage stored (Some ev) v) = stored)
  /\ onStorage stored None v = v.
Proof.
  intros F. repeat split.
  - intros H. unfold onPrefsUpdated. simpl. rewrite H.
    now destruct e as [[[d|]]|], stored.
  - now apply personalized_kept.
  - apply storage_keeps_mode.
  - intros ev. apply onStorage_viewMode.
Qed.

Lemma prefs_signal_view_mode_witness :
  viewMode (onPrefsUpdated None
              (Some (mkCustomEvent (Some science_ai_prefs))) (View_init None))
  = personalized
  /\ viewMode
       (View_run (View_init (Some science_ai_prefs))
          [StorageChanged None (Some tt);
           PrefsUpdated None (Some (mkCustomEvent None))])
     = personalized
  /\ viewMode (onPrefsUpdated (Some science_ai_prefs)
                 (Some (mkCustomEvent None)) (View_init None))
     = personalized.
Proof.
  destruct (prefs_signal_view_mode (View_init None) None
              (Some (mkCustomEvent (Some science_ai_prefs))) [])
    as [H1 _]; [constructor|].
  destruct (prefs_signal_view_mode (View_init (Some science_ai_prefs)) None
              None
              [StorageChanged None (Some tt);
               PrefsUpdated None (Some (mkCustomEvent None))])
    as [_ [_ [H2 _]]]; [repeat constructor|].
  destruct (prefs_signal_view_mode (View_init None) (Some science_ai_prefs)
              (Some (mkCustomEvent None)) [])
    as [H3 [_ [_ [_ [_ [H4 _]]]]]]; [constructor|].
  split; [apply H1; reflexivity|]. split; [apply H2; reflexivity|].
  rewrite (H3 eq_refl), H4. reflexivity.
Defined.

(** Against C9 as written: (1) the user has preferences and chose "all" on
    the View chip; the next in-process signal switches the view to
    "personalized" all the same.  (2) A view in "all" mode without
    preferences learns of the first preferences through a storage signal
    and stays in "all" mode. *)
Lemma explicit_all_not_kept :
  prefs (View_run (View_init (Some science_ai_prefs)) [ChipClicked all])
  = Some science_ai_prefs
  /\ viewMode (View_run (View_init (Some science_ai_prefs)) [ChipClicked all])
     = all
  /\ viewMode
       (View_run (View_init (Some science_ai_prefs))
          [ChipClicked all;
           PrefsUpdated (Some science_ai_prefs)
             (Some (mkCustomEvent (Some science_ai_prefs)))])
     = personalized
  /\ prefs (View_init None) = None
  /\ prefs (View_run (View_init None)
              [StorageChanged (Some science_ai_prefs) (Some tt)])
     = Some science_ai_prefs
  /\ viewMode (View_run (View_init None)
                 [StorageChanged (Some science_ai_prefs) (Some tt)])
     = all.
Proof. repeat split. Qed.

(** ** The Saved view *)

Lemma Saved_events_In all savedIds e :
  In e (Saved_events all savedIds) <-> In e all /\ In (Event.id e) savedIds.
Proof. unfold Saved_events. now rewrite filter_In, arr_includes_In. Qed.

(** C10: a saved id appears in the Saved list exactly when the catalog
    that loadEvents() returned has an event with that id; a saved custom
    event whose id the catalog does not have is in the Feed's events and
    not in the Saved list. *)
Theorem saved_view_catalog_only fileEvents savedIds i :
  In i savedIds ->
  (appears i (Saved_events fileEvents savedIds) <-> appears i fileEvents)
  /\ (forall custom c,
        In c custom -> Event.id c = i -> ~ appears i fileEvents ->
        In c (Feed_events (Some custom) fileEvents)
        /\ ~ appears i (Saved_events fileEvents savedIds)).
Proof.
  intros Hs.
  assert (E : appears i (Saved_events fileEvents savedIds) <-> appears i fileEvents).
  { unfold appears. split; intros [e [He Hi]]; exists e.
    - apply Saved_events_In in He. tauto.
    - split; [|exact Hi]. apply Saved_events_In. subst i. tauto. }
  split; [exact E|].
  intros custom c Hc Hi Hno. split.
  - unfold Feed_events. simpl. apply in_or_app. now left.
  - now rewrite E.
Qed.

Lemma saved_view_catalog_only_witness :
  appears "1" (Saved_events scenario_events ["1"; "c1"])
  /\ In custom_event (Feed_events (Some [custom_event]) scenario_events)
  /\ ~ appears "c1" (Saved_events scenario_events ["1"; "c1"]).
Proof.
  split.
  - apply (proj1 (saved_view_catalog_only scenario_events ["1"; "c1"] "1"
                    ltac:(simpl; auto))).
    eexists. split; [left; reflexivity|reflexivity].
  - apply (proj2 (saved_view_catalog_only scenario_events ["1"; "c1"] "c1"
                    ltac:(simpl; auto)) [custom_event] custom_event);
      [simpl; auto|reflexivity|].
    intros [e [[<-|[<-|[]]] E]]; discriminate.
Defined.

Lemma matchesQuery_spec_witness :
  matchesQuery ai_then_hackathon "   " = true
  /\ matchesQuery ai_then_hackathon " HACK  ai " = true.
Proof.
  split.
  - apply (proj2 (matchesQuery_spec ai_then_hackathon "   ")). reflexivity.
  - apply (proj1 (matchesQuery_spec ai_then_hackathon " HACK  ai ")).
    intros w Hw. simpl in Hw. destruct Hw as [<-|[<-|[]]].
    + exists "ai ", " night    ai hackathon". reflexivity.
    + exists "", " hack night    ai hackathon". reflexivity.
Defined.

(** ** The tag cloud *)

Section TagCloud.

Lemma filter_map_comm {A B : Type} (f : A -> B) (P : B -> bool) (l : list A) :
  List.filter P (List.map f l) = List.map f (List.filter (fun a => P (f a)) l).
Proof.
  induction l as [|a l IH]; simpl; [reflexivity|].
  destruct (P (f a)); simpl; now rewrite IH.
Qed.

Lemma first_seen_In k l : In k (first_seen l) <-> In k l.
Proof.
  induction l as [|x l IH]; simpl; [tauto|].
  rewrite filter_In, IH, negb_true_iff, String.eqb_neq.
  destruct (string_dec x k); intuition congruence.
Qed.

Lemma first_seen_NoDup l : List.NoDup (first_seen l).
Proof.
  induction l as [|x l IH]; simpl; constructor.
  - rewrite filter_In, negb_true_iff, String.eqb_neq. tauto.
  - now apply List.NoDup_filter.
Qed.

Lemma first_seen_snoc l x :
  first_seen (l ++ [x])
  = if JS.arr_includes l x then first_seen l else (first_seen l ++ [x])%list.
Proof.
  unfold JS.arr_includes. induction l as [|y l IH]; simpl; [reflexivity|].
  rewrite IH. destruct (String.eqb x y) eqn:E; simpl.
  - apply String.eqb_eq in E. subst y.
    destruct (existsb (String.eqb x) l); [reflexivity|].
    rewrite List.filter_app. simpl. rewrite String.eqb_refl. simpl.
    now rewrite List.app_nil_r.
  - destruct (existsb (String.eqb x) l); [reflexivity|].
    rewrite List.filter_app. simpl. rewrite E. reflexivity.
Qed.

Lemma occ_snoc k l x :
  occ k (l ++ [x]) = occ k l + (if String.eqb k x then 1 else 0).
Proof.
  unfold occ. rewrite List.filter_app, List.length_app. simpl.
  destruct (String.eqb k x); simpl; lia.
Qed.

Lemma occ_absent k l : ~ In k l -> occ k l = 0.
Proof.
  intros H. unfold occ.
  replace (List.filter (String.eqb k) l) with (@nil string); [reflexivity|].
  symmetry. induction l as [|y l IH]; simpl; [reflexivity|].
  destruct (String.eqb k y) eqn:E.
  - apply String.eqb_eq in E. subst y. exfalso. apply H. now left.
  - apply IH. intros H'. apply H. now right.
Qed.

Lemma bump_present x (g : string -> Z) ks :
  List.NoDup ks -> In x ks ->
  bump x (List.map (fun k => (k, g k)) ks)
  = List.map (fun k => (k, g k + (if String.eqb k x then 1 else 0))) ks.
Proof.
  induction 1 as [|a ks Ha Hnd IH]; simpl; [contradiction|].
  intros Hin. destruct (String.eqb a x) eqn:E.
  - apply String.eqb_eq in E. subst a. f_equal.
    apply map_ext_in. intros k Hk.
    destruct (String.eqb k x) eqn:E'.
    + apply String.eqb_eq in E'. subst k. contradiction.
    + f_equal. lia.
  - destruct Hin as [->|Hin]; [rewrite String.eqb_refl in E; discriminate|].
    rewrite IH by exact Hin. f_equal. f_equal. lia.
Qed.

Lemma bump_absent x (g : string -> Z) ks :
  ~ In x ks ->
  bump x (List.map (fun k => (k, g k)) ks)
  = (List.map (fun k => (k, g k)) ks ++ [(x, 1)])%list.
Proof.
  induction ks as [|a ks IH]; simpl; [reflexivity|].
  intros H. destruct (String.eqb a x) eqn:E.
  - apply String.eqb_eq in E. subst a. exfalso. apply H. now left.
  - rewrite IH; [reflexivity|]. intros H'. apply H. now right.
Qed.

Lemma counted_snoc l x : counted (l ++ [x]) = bump x (counted l).
Proof.
  unfold counted. rewrite first_seen_snoc.
  destruct (JS.arr_includes l x) eqn:E.
  - apply arr_includes_In in E.
    rewrite bump_present; [|apply first_seen_NoDup|now apply first_seen_In].
    apply map_ext. intros k. now rewrite occ_snoc.
  - assert (N : ~ In x l).
    { intros H. apply arr_includes_In in H. congruence. }
    rewrite bump_absent by (now rewrite first_seen_In).
    rewrite List.map_app. simpl. f_equal.
    + apply map_ext_in. intros k Hk. rewrite occ_snoc.
      destruct (String.eqb k x) eqn:E'; [|f_equal; lia].
      apply String.eqb_eq in E'. subst k.
      apply (proj1 (first_seen_In _ _)) in Hk. contradiction.
    + rewrite occ_snoc, occ_absent, String.eqb_refl by exact N. reflexivity.
Qed.

Lemma fold_bump_counted l :
  fold_left (fun c n => bump n c) l [] = counted l.
Proof.
  induction l as [|x l IH] using rev_ind; [reflexivity|].
  now rewrite fold_left_app, counted_snoc, IH.
Qed.

Lemma fold_count_tag l acc :
  fold_left count_tag l acc
  = fold_left (fun c n => bump n c)
      (List.filter allowedNorm_has (List.map norm l)) acc.
Proof.
  revert acc. induction l as [|t l IH]; intros acc; [reflexivity|].
  cbn [fold_left List.map List.filter]. rewrite IH. unfold count_tag.
  destruct (allowedNorm_has (norm t)); reflexivity.
Qed.

Lemma tag_counts_counted pool : tag_counts pool = counted (allowed_stream pool).
Proof.
  unfold tag_counts, allowed_stream, pool_tags.
  rewrite <- fold_bump_counted, <- fold_count_tag.
  generalize (@nil (string * Z)).
  induction pool as [|e pool IH]; intros acc; simpl; [reflexivity|].
  rewrite fold_left_app. apply IH.
Qed.

Lemma allowedNorm_cases k :
  allowedNorm_has k = true ->
  In k ALLOWED_TAGS /\ canonical_of k = k.
Proof.
  intros H. apply arr_includes_In in H. vm_compute in H.
  destruct H as [<-|[<-|[<-|[<-|[<-|[]]]]]]; split; vm_compute; tauto.
Qed.

Lemma allowed_stream_allowed pool k :
  In k (allowed_stream pool) -> allowedNorm_has k = true.
Proof. unfold allowed_stream. rewrite filter_In. tauto. Qed.

Lemma occ_occurrences pool k :
  allowedNorm_has k = true -> occ k (allowed_stream pool) = occurrences pool k.
Proof.
  intros A. unfold occ, occurrences, allowed_stream. f_equal.
  induction (pool_tags pool) as [|t l IH]; simpl; [reflexivity|].
  destruct (String.eqb (norm t) k) eqn:E.
  - apply String.eqb_eq in E. rewrite E, A. simpl.
    rewrite String.eqb_refl. simpl. now rewrite IH.
  - destruct (allowedNorm_has (norm t)); simpl; [|exact IH].
    rewrite String.eqb_sym, E. exact IH.
Qed.

Lemma counted_short pool : (length (counted (allowed_stream pool)) <= 5)%nat.
Proof.
  unfold counted. rewrite length_map.
  change 5%nat with (length (List.map norm ALLOWED_TAGS)).
  apply List.NoDup_incl_length; [apply first_seen_NoDup|].
  intros k Hk. apply (proj1 (first_seen_In _ _)) in Hk.
  apply allowed_stream_allowed in Hk.
  now apply arr_includes_In.
Qed.

(** The cloud is the stable sort of the counted tags; the slice cuts
    nothing off. *)
Lemma tagCloud_counted pool :
  tagCloud pool
  = List.map (fun '(k, c) => mkCloud k c)
      (JS.sort by_count_desc (counted (allowed_stream pool))).
Proof.
  unfold tagCloud, JS.slice0, TAG_CLOUD_LIMIT. rewrite tag_counts_counted.
  rewrite firstn_all2.
  - apply map_ext_in. intros [k c] Hk. apply sort_In in Hk.
    unfold counted in Hk. apply in_map_iff in Hk as [k' [E Hk']].
    inversion E; subst k' c.
    apply (proj1 (first_seen_In _ _)) in Hk'.
    apply allowed_stream_allowed, allowedNorm_cases in Hk'.
    now rewrite (proj2 Hk').
  - rewrite (Permutation_length (sort_perm _ _)). apply counted_short.
Qed.

(** C3, with the tie rule the code has: the cloud has at most 5 entries;
    every entry shows an allow-listed tag in the allow-list's spelling,
    with the number of tag occurrences in the pool that normalize to it;
    the entries are in descending order of count; entries with equal
    count are in the order in which their tags first occur in the
    pool. *)
Theorem tagCloud_spec pool :
  (length (tagCloud pool) <= 5)%nat
  /\ Forall (fun en => In (tag en) ALLOWED_TAGS
                       /\ count en = occurrences pool (tag en))
            (tagCloud pool)
  /\ StronglySorted (fun a b => count b <= count a) (tagCloud pool)
  /\ (forall c,
        List.map tag (List.filter (fun en => count en =? c) (tagCloud pool))
        = List.filter (fun t => occurrences pool t =? c)
            (first_seen (allowed_stream pool))).
Proof.
  split; [|split; [|split]].
  - unfold tagCloud, JS.slice0, TAG_CLOUD_LIMIT.
    rewrite length_map. apply firstn_le_length.
  - rewrite tagCloud_counted. apply List.Forall_forall. intros en Hen.
    apply in_map_iff in Hen as [[k c] [<- Hk]]. simpl.
    apply sort_In in Hk. unfold counted in Hk.
    apply in_map_iff in Hk as [k' [E Hk']]. inversion E; subst k' c.
    apply (proj1 (first_seen_In _ _)) in Hk'.
    apply allowed_stream_allowed in Hk'.
    split; [now apply allowedNorm_cases|now apply occ_occurrences].
  - rewrite tagCloud_counted.
    eapply StronglySorted_map; [|apply sorted_by_count].
    now intros [k c] [k' c'].
  - intros c. rewrite tagCloud_counted.
    rewrite filter_map_comm, List.map_map.
    rewrite (filter_ext (fun a : string * Z => count (let '(k, c0) := a in mkCloud k c0) =? c)
               (fun a => snd a =? c)) by (now intros [k c0]).
    rewrite sort_filter.
    + unfold counted. rewrite filter_map_comm, List.map_map. simpl.
      rewrite List.map_id. apply filter_ext_in. intros k Hk.
      apply (proj1 (first_seen_In _ _)) in Hk.
      apply allowed_stream_allowed in Hk. now rewrite occ_occurrences.
    + intros a b Ha Hb. apply by_count_desc_not_after.
      apply Z.eqb_eq in Ha, Hb. lia.
Qed.

(** Against C3 as written: "ai" and "hackathon" both occur once, "ai"
    first; the cloud lists "ai" before "hackathon", the allow-list has
    "hackathon" before "ai". *)
Lemma tagCloud_ties_not_by_allowlist :
  tagCloud [ai_then_hackathon] = [mkCloud "ai" 1; mkCloud "hackathon" 1]
  /\ ~ ties_by_allowlist (tagCloud [ai_then_hackathon]).
Proof.
  split; [reflexivity|].
  intros H.
  specialize (H 0%nat 1%nat (mkCloud "ai" 1) (mkCloud "hackathon" 1)).
  vm_compute in H.
  specialize (H ltac:(lia) eq_refl eq_refl eq_refl). lia.
Qed.

End TagCloud.

(** ** More on the visible list *)

Section VisibleMore.
Variable Date_getTime : string -> option Z.

Lemma opt_eqb_eq a b : opt_eqb a b = true <-> a = b.
Proof.
  destruct a as [a|], b as [b|]; simpl; rewrite ?String.eqb_eq;
    split; congruence.
Qed.

Lemma withSearch_In pool level q selectedTags e :
  In e (withSearch pool level q selectedTags)
  <-> In e pool
      /\ (level = "all" \/ Event.level e = Some level)
      /\ (selectedTags = []
          \/ exists t s, In t (tags_or_empty e) /\ In s selectedTags
                         /\ norm t = norm s)
      /\ matchesQuery e q = true.
Proof.
  unfold withSearch. rewrite filter_In.
  assert (L : forall l,
             In e (List.filter
                     (fun e => String.eqb level "all"
                               || opt_eqb (Event.level e) (Some level)) l)
             <-> In e l /\ (level = "all" \/ Event.level e = Some level)).
  { intros l. now rewrite filter_In, orb_true_iff, String.eqb_eq, opt_eqb_eq. }
  destruct selectedTags as [|s0 sel].
  - rewrite L. tauto.
  - set (sels := s0 :: sel). rewrite filter_In, L, existsb_exists.
    assert (T : (exists t, In t (tags_or_empty e)
                           /\ JS.arr_includes (List.map norm sels) (norm t) = true)
                <-> exists t s, In t (tags_or_empty e) /\ In s sels
                                /\ norm t = norm s).
    { split.
      - intros [t [Ht Hs]]. apply arr_includes_In, in_map_iff in Hs.
        destruct Hs as [s [E Hs]]. exists t, s. auto.
      - intros [t [s [Ht [Hs E]]]]. exists t. split; [exact Ht|].
        apply arr_includes_In. rewrite E. now apply in_map. }
    rewrite T. intuition (try discriminate).
Qed.

Lemma filtered_withSearch_In pool level sort q selectedTags savedIds e :
  In e (filtered Date_getTime pool level sort q selectedTags savedIds)
  <-> In e (withSearch pool level q selectedTags).
Proof. unfold filtered. destruct sort; apply sort_In. Qed.

(** X1: the visible list holds exactly the pool events that pass the
    level filter, the selected-tag filter and the search, whatever the
    sort. *)
Theorem filtered_In pool level sort q selectedTags savedIds e :
  In e (filtered Date_getTime pool level sort q selectedTags savedIds)
  <-> In e pool
      /\ (level = "all" \/ Event.level e = Some level)
      /\ (selectedTags = []
          \/ exists t s, In t (tags_or_empty e) /\ In s selectedTags
                         /\ norm t = norm s)
      /\ matchesQuery e q = true.
Proof.
  rewrite <- withSearch_In. apply filtered_withSearch_In.
Qed.

Lemma withSearch_clear pool : withSearch pool "all" "" [] = pool.
Proof.
  unfold withSearch. simpl.
  assert (F : forall (P : Event -> bool) l,
             (forall e, P e = true) -> List.filter P l = l).
  { intros P l H. induction l as [|x l IH]; simpl; [reflexivity|].
    now rewrite H, IH. }
  rewrite F; [apply F|]; reflexivity.
Qed.

(** X2: after "Clear filters" the view mode is what it was and the visible
    list is the whole base pool, rearranged by the trending sort: nothing
    is hidden, nothing is repeated. *)
Theorem clearAllFilters_shows_pool events prefs st savedIds :
  Selection.viewMode (clearAllFilters st) = Selection.viewMode st
  /\ Permutation
       (visible Date_getTime events prefs (clearAllFilters st) savedIds)
       (basePool events prefs (Selection.viewMode st))
  /\ clearAllFilters (clearAllFilters st) = clearAllFilters st.
Proof.
  split; [reflexivity|]. split; [|reflexivity].
  unfold visible, filtered. simpl. rewrite withSearch_clear. apply sort_perm.
Qed.

Lemma basePool_incl events prefs viewMode e :
  In e (basePool events prefs viewMode) -> In e events.
Proof.
  destruct viewMode, prefs as [p|]; rewrite ?basePool_all, ?basePool_no_prefs;
    try tauto.
  intros H. now apply basePool_personalized in H.
Qed.

(** X3: personalizing only narrows: an event visible in the personalized view
    is visible in the "all" view under the same filters, and every visible
    event is one of the loaded events. *)
Theorem personalized_narrows events prefs level sort q selectedTags savedIds e :
  In e (filtered Date_getTime (basePool events prefs personalized)
          level sort q selectedTags savedIds) ->
  In e (filtered Date_getTime (basePool events prefs all)
          level sort q selectedTags savedIds)
  /\ In e events.
Proof.
  rewrite !filtered_withSearch_In, !withSearch_In, basePool_all. intros [H R].
  apply basePool_incl in H. tauto.
Qed.

End VisibleMore.

(** ** Selecting tags *)

Lemma remove_tag_In tag l t :
  In t (List.filter (fun t => negb (String.eqb t tag)) l) <-> In t l /\ t <> tag.
Proof. now rewrite filter_In, negb_true_iff, String.eqb_neq. Qed.

Lemma remove_tag_absent tag l :
  ~ In tag l -> List.filter (fun t => negb (String.eqb t tag)) l = l.
Proof.
  induction l as [|x l IH]; simpl; [reflexivity|]. intros H.
  destruct (String.eqb x tag) eqn:E; simpl.
  - apply String.eqb_eq in E. subst x. exfalso. apply H. now left.
  - rewrite IH; [reflexivity|]. intros H'. apply H. now right.
Qed.

Lemma toggleTag_In tag l t :
  In t (toggleTag tag l)
  <-> (t = tag /\ ~ In tag l) \/ (t <> tag /\ In t l).
Proof.
  unfold toggleTag. destruct (JS.arr_includes l tag) eqn:E.
  - apply arr_includes_In in E. rewrite remove_tag_In.
    destruct (string_dec t tag); intuition congruence.
  - assert (N : ~ In tag l) by (rewrite <- arr_includes_In; congruence).
    rewrite in_app_iff. simpl.
    destruct (string_dec t tag); intuition congruence.
Qed.

Lemma toggleTag_NoDup tag l : List.NoDup l -> List.NoDup (toggleTag tag l).
Proof.
  intros H. unfold toggleTag. destruct (JS.arr_includes l tag) eqn:E.
  - now apply List.NoDup_filter.
  - assert (N : ~ In tag l) by (rewrite <- arr_includes_In; congruence).
    apply Permutation_NoDup with (l := tag :: l).
    + apply Permutation_cons_append.
    + now constructor.
Qed.

(** X4: clicking tag chips: a click flips the selection of its tag and of no
    other; starting from the empty selection no tag is ever selected
    twice; and clicking a tag that is not selected twice in a row gives
    the selection back as it was. *)
Theorem toggleTag_spec tag (clicks : list string) l :
  (forall t, In t (toggleTag tag l)
             <-> (t = tag /\ ~ In tag l) \/ (t <> tag /\ In t l))
  /\ List.NoDup (fold_left (fun sel t => toggleTag t sel) clicks [])
  /\ (JS.arr_includes l tag = false -> toggleTag tag (toggleTag tag l) = l).
Proof.
  split; [intros t; apply toggleTag_In|]. split.
  - assert (G : forall sel, List.NoDup sel ->
                  List.NoDup (fold_left (fun sel t => toggleTag t sel) clicks sel)).
    { induction clicks as [|c cs IH]; intros sel H; simpl; [exact H|].
      now apply IH, toggleTag_NoDup. }
    apply G. constructor.
  - intros E. unfold toggleTag at 2. rewrite E. unfold toggleTag.
    assert (I : JS.arr_includes (l ++ [tag]) tag = true).
    { apply arr_includes_In, in_or_app. right. now left. }
    rewrite I, List.filter_app. simpl. rewrite String.eqb_refl. simpl.
    rewrite List.app_nil_r. apply remove_tag_absent.
    rewrite <- arr_includes_In. congruence.
Qed.

Lemma toggleTag_spec_witness :
  toggleTag "ai" (toggleTag "ai" ["web dev"]) = ["web dev"].
Proof.
  apply (proj2 (proj2 (toggleTag_spec "ai" [] ["web dev"]))). reflexivity.
Defined.

(** ** More on the tag cloud *)

Section TagCloudMore.
Variable Date_getTime : string -> option Z.

Lemma filter_length_pos {A : Type} (P : A -> bool) (l : list A) :
  (0 < length (List.filter P l))%nat <-> exists x, In x l /\ P x = true.
Proof.
  induction l as [|a l IH]; simpl.
  - split; [lia|intros [x [[] _]]].
  - destruct (P a) eqn:Pa; simpl.
    + split; [intros _; exists a; auto|lia].
    + rewrite IH. split; intros [x [Hx Px]]; exists x.
      * auto.
      * destruct Hx as [->|Hx]; [congruence|auto].
Qed.

Lemma occurrences_pos pool t :
  0 < occurrences pool t
  <-> exists e x, In e pool /\ In x (tags_or_empty e) /\ norm x = t.
Proof.
  unfold occurrences, pool_tags.
  rewrite <- Nat2Z.inj_0, <- Nat2Z.inj_lt, filter_length_pos. split.
  - intros [x [Hx E]]. apply in_flat_map in Hx as [e [He Hx]].
    apply String.eqb_eq in E. eauto.
  - intros [e [x [He [Hx E]]]]. exists x. split.
    + apply in_flat_map. eauto.
    + now apply String.eqb_eq.
Qed.

Lemma allowed_is_allowedNorm t : In t ALLOWED_TAGS <-> allowedNorm_has t = true.
Proof.
  unfold allowedNorm_has. rewrite arr_includes_In.
  change (List.map norm ALLOWED_TAGS) with ALLOWED_TAGS. tauto.
Qed.

Lemma cloud_tags pool :
  Permutation (List.map tag (tagCloud pool)) (first_seen (allowed_stream pool)).
Proof.
  rewrite tagCloud_counted, List.map_map.
  rewrite (map_ext _ fst) by (now intros [k c]).
  rewrite (sort_perm by_count_desc). unfold counted.
  rewrite List.map_map. simpl. now rewrite List.map_id.
Qed.

Lemma tagCloud_has pool t :
  (exists en, In en (tagCloud pool) /\ tag en = t)
  <-> In t ALLOWED_TAGS /\ 0 < occurrences pool t.
Proof.
  - transitivity (In t (List.map tag (tagCloud pool))).
    { rewrite in_map_iff. split; intros [en H]; exists en; tauto. }
    transitivity (In t (first_seen (allowed_stream pool))).
    { split; apply Permutation_in; [|symmetry]; apply cloud_tags. }
    rewrite first_seen_In.
    unfold allowed_stream. rewrite filter_In, in_map_iff.
    rewrite allowed_is_allowedNorm, occurrences_pos. unfold pool_tags.
    split.
    + intros [[x [E Hx]] A]. split; [exact A|].
      apply in_flat_map in Hx as [e [He Hx]]. eauto.
    + intros [A [e [x [He [Hx E]]]]]. split; [|exact A].
      exists x. split; [exact E|]. apply in_flat_map. eauto.
Qed.

(** X5: the cloud is complete and free of repetitions: a tag is shown
    exactly when it is allow-listed and some tag of the pool normalizes to
    it, and no tag is shown twice. *)
Theorem tagCloud_complete pool t :
  ((exists en, In en (tagCloud pool) /\ tag en = t)
   <-> In t ALLOWED_TAGS /\ 0 < occurrences pool t)
  /\ List.NoDup (List.map tag (tagCloud pool)).
Proof.
  split; [apply tagCloud_has|].
  apply (Permutation_NoDup (l := first_seen (allowed_stream pool))).
  - symmetry. apply cloud_tags.
  - apply first_seen_NoDup.
Qed.






End TagCloudMore.


(** ** More on the query matcher *)

Lemma tokens_from_app cur a c b :
  JS.is_ws c = true ->
  tokens_from cur (a ++ String c b)
  = (tokens_from cur a ++ tokens_from "" b)%list.
Proof.
  intros W. revert cur. induction a as [|d a IH]; intros cur; simpl.
  - rewrite W. now destruct (JS.truthy cur).
  - destruct (JS.is_ws d); [|apply IH].
    rewrite IH. now destruct (JS.truthy cur).
Qed.

(** X7: words add up: a query made of two queries with white space between
    them matches exactly when both match, so more words never widen the
    result, and surrounding white space is ignored. *)
Theorem matchesQuery_and e q1 c q2 :
  JS.is_ws c = true ->
  matchesQuery e (q1 ++ String c q2) = matchesQuery e q1 && matchesQuery e q2.
Proof.
  intros W. rewrite !matchesQuery_tokens. unfold tokens.
  rewrite (tokens_from_app _ _ _ _ W), List.map_app. apply forallb_app.
Qed.

Lemma matchesQuery_and_witness :
  matchesQuery ai_then_hackathon ("hack" ++ " " ++ "design")
  = matchesQuery ai_then_hackathon "hack"
    && matchesQuery ai_then_hackathon "design".
Proof.
  apply (matchesQuery_and ai_then_hackathon "hack" " " "design"). reflexivity.
Defined.

Lemma tokens_lower q : tokens (JS.toLowerCase q) = List.map JS.toLowerCase (tokens q).
Proof. unfold tokens. now rewrite <- tokens_from_lower. Qed.

Lemma lower_char_idem c : JS.lower_char (JS.lower_char c) = JS.lower_char c.
Proof. destruct c as [[] [] [] [] [] [] [] []]; reflexivity. Qed.

Lemma toLowerCase_idem s : JS.toLowerCase (JS.toLowerCase s) = JS.toLowerCase s.
Proof. induction s; simpl; [reflexivity|]. now rewrite lower_char_idem, IHs. Qed.

Lemma matchesQuery_lower e q1 q2 :
  JS.toLowerCase q1 = JS.toLowerCase q2 ->
  matchesQuery e q1 = matchesQuery e q2.
Proof.
  intros E. rewrite !matchesQuery_tokens, <- !tokens_lower. now rewrite E.
Qed.

(** X8: the search ignores the case of the query: two queries that differ
    in case only select the same events. *)
Theorem matchesQuery_case_insensitive e q1 q2 :
  JS.toLowerCase q1 = JS.toLowerCase q2 ->
  matchesQuery e q1 = matchesQuery e q2.
Proof. apply matchesQuery_lower. Qed.

Lemma matchesQuery_case_insensitive_witness :
  matchesQuery ai_then_hackathon "Hack NIGHT"
  = matchesQuery ai_then_hackathon "hACK night".
Proof.
  apply matchesQuery_case_insensitive. reflexivity.
Defined.

Lemma is_substring_refl s : is_substring s s.
Proof. exists "", "". simpl. now rewrite app_empty_r. Qed.

Lemma is_substring_trans a b c :
  is_substring a b -> is_substring b c -> is_substring a c.
Proof.
  intros [p1 [s1 ->]] [p2 [s2 ->]]. exists (p2 ++ p1), (s1 ++ s2).
  now rewrite !app_assoc'.
Qed.

Lemma is_substring_lower a b :
  is_substring a b -> is_substring (JS.toLowerCase a) (JS.toLowerCase b).
Proof.
  intros [p [s ->]]. exists (JS.toLowerCase p), (JS.toLowerCase s).
  now rewrite !toLowerCase_app.
Qed.

Lemma tokens_from_substring cur s w :
  In w (tokens_from cur s) -> is_substring w (cur ++ s).
Proof.
  revert cur. induction s as [|c s IH]; intros cur; simpl.
  - destruct (JS.truthy cur); [|contradiction].
    intros [<-|[]]. rewrite app_empty_r. apply is_substring_refl.
  - destruct (JS.is_ws c).
    + intros H.
      assert (H' : w = cur \/ In w (tokens_from "" s)).
      { destruct (JS.truthy cur); [destruct H; auto|auto]. }
      destruct H' as [->|H'].
      * exists "", (String c s). reflexivity.
      * apply IH in H'. destruct H' as [p [r E]]. simpl in E.
        exists (cur ++ String c p), r. rewrite app_assoc'. simpl.
        now rewrite <- E.
    + intros H. apply IH in H. now rewrite app_assoc' in H.
Qed.

Lemma concat_substring sep l t :
  In t l -> is_substring t (String.concat sep l).
Proof.
  induction l as [|x l IH]; [contradiction|].
  intros [->|H].
  - destruct l as [|y l]; simpl; [apply is_substring_refl|].
    exists "", (sep ++ String.concat sep (y :: l)). reflexivity.
  - specialize (IH H). destruct l as [|y l]; [contradiction|].
    destruct IH as [p [r E]].
    exists (x ++ sep ++ p), r.
    change (String.concat sep (x :: y :: l))
      with (x ++ sep ++ String.concat sep (y :: l)).
    now rewrite E, !app_assoc'.
Qed.

(** X9: searching for the text of a searchable field finds the event: the
    title, the description, the organizer, the location or any tag of an
    event, typed as the query in any case, matches that event. *)
Theorem matchesQuery_own_text e t q :
  In (Some t)
     ([Event.title e; Event.description e; Event.organizer e;
       Event.location e] ++ List.map Some (tags_or_empty e)) ->
  JS.toLowerCase q = JS.toLowerCase t ->
  matchesQuery e q = true.
Proof.
  intros Hin Hq.
  rewrite (matchesQuery_lower e q t Hq).
  rewrite matchesQuery_tokens. apply forallb_forall. intros w Hw.
  rewrite haystack_searchable. apply includes_substring.
  apply in_map_iff in Hw as [w0 [<- Hw]].
  apply is_substring_lower.
  apply is_substring_trans with t.
  - apply tokens_from_substring in Hw. exact Hw.
  - unfold searchable_text. apply concat_substring.
    simpl in Hin. simpl.
    destruct Hin as [H|[H|[H|[H|H]]]].
    + left. now rewrite H.
    + right. left. now rewrite H.
    + right. right. left. now rewrite H.
    + right. right. right. left. now rewrite H.
    + right. right. right. right.
      apply in_map_iff in H as [t' [E H]]. congruence.
Qed.

Lemma matchesQuery_own_text_witness :
  matchesQuery ai_then_hackathon "ai hack NIGHT" = true.
Proof.
  apply (matchesQuery_own_text ai_then_hackathon "AI Hack Night").
  - left. reflexivity.
  - reflexivity.
Defined.

(** ** More on the trending list *)

Lemma StronglySorted_app_cross {A : Type} (R : A -> A -> Prop) (l1 l2 : list A) :
  StronglySorted R (l1 ++ l2) ->
  forall a b, In a l1 -> In b l2 -> R a b.
Proof.
  induction l1 as [|x l1 IH]; simpl; [intros _ a b []|].
  intros H a b Ha Hb. inversion H as [|? ? Hs Hx]; subst.
  destruct Ha as [<-|Ha]; [|now apply IH].
  rewrite List.Forall_forall in Hx. apply Hx, in_or_app. now right.
Qed.

Lemma trending_candidates_nil counts : trending_candidates [] counts = [].
Proof.
  unfold trending_candidates. induction counts as [|[i c] l IH]; simpl;
    [reflexivity|]. now rewrite andb_false_r.
Qed.

Lemma trending_shown pool saveCounts :
  trending pool saveCounts
  = List.map (fun '(i, c) => mkTrend (Map_get pool i) c)
      (firstn 3 (JS.sort by_count_desc
                   (trending_candidates pool (default [] saveCounts)))).
Proof.
  destruct pool as [|e pool]; [|reflexivity].
  now rewrite trending_candidates_nil.
Qed.

(** X10: the trending list is the top of the ranking: it shows 3 of the ranked
    entries, or all of them when there are fewer, and no entry left out
    has a higher count than an entry shown. *)
Theorem trending_top3 pool saveCounts :
  length (trending pool saveCounts)
  = Nat.min 3 (length (trending_candidates pool (default [] saveCounts)))
  /\ exists shown rest,
       Permutation (trending_candidates pool (default [] saveCounts))
         (shown ++ rest)
       /\ trending pool saveCounts
          = List.map (fun '(i, c) => mkTrend (Map_get pool i) c) shown
       /\ forall a b, In a shown -> In b rest -> snd b <= snd a.
Proof.
  rewrite trending_shown.
  set (cands := trending_candidates pool (default [] saveCounts)).
  split.
  - rewrite length_map, length_firstn.
    now rewrite (Permutation_length (sort_perm by_count_desc cands)).
  - exists (firstn 3 (JS.sort by_count_desc cands)),
           (skipn 3 (JS.sort by_count_desc cands)).
    rewrite firstn_skipn. split; [symmetry; apply sort_perm|].
    split; [reflexivity|].
    apply (StronglySorted_app_cross (fun a b : string * Z => snd b <= snd a)).
    rewrite firstn_skipn. apply sorted_by_count.
Qed.

Lemma NoDup_map_in {A B : Type} (f : A -> B) (l : list A) :
  List.NoDup l ->
  (forall x y, In x l -> In y l -> f x = f y -> x = y) ->
  List.NoDup (List.map f l).
Proof.
  induction 1 as [|x l Hx Hnd IH]; intros inj; simpl; constructor.
  - intros H. apply in_map_iff in H as [y [E Hy]].
    apply Hx. rewrite (inj x y); simpl; auto.
  - apply IH. intros a b Ha Hb. apply inj; now right.
Qed.

Lemma NoDup_map_filter {A B : Type} (f : A -> B) (P : A -> bool) (l : list A) :
  List.NoDup (List.map f l) -> List.NoDup (List.map f (List.filter P l)).
Proof.
  induction l as [|x l IH]; simpl; [auto|].
  intros H. inversion H as [|? ? Hx Hnd]; subst.
  destruct (P x); simpl; [|now apply IH].
  constructor; [|now apply IH].
  intros H'. apply Hx. apply in_map_iff in H' as [y [E Hy]].
  apply filter_In in Hy as [Hy _]. apply in_map_iff. eauto.
Qed.

(** X11: no event is listed twice in the trending list, even when the pool
    holds several events with one id, the keys of the save counts being
    distinct as the keys of an object are. *)
Theorem trending_distinct pool saveCounts :
  List.NoDup (List.map fst (default [] saveCounts)) ->
  List.NoDup (List.map evt (trending pool saveCounts)).
Proof.
  intros Hk. rewrite trending_shown.
  set (cands := trending_candidates pool (default [] saveCounts)).
  set (shown := firstn 3 (JS.sort by_count_desc cands)).
  assert (Hc : List.NoDup (List.map fst cands)) by now apply NoDup_map_filter.
  assert (Hs : List.NoDup (List.map fst shown)).
  { assert (Hsorted : List.NoDup (List.map fst (JS.sort by_count_desc cands))).
    { eapply Permutation_NoDup; [|exact Hc].
      apply Permutation_map. symmetry. apply sort_perm. }
    rewrite <- (firstn_skipn 3 (JS.sort by_count_desc cands)), List.map_app
      in Hsorted.
    now apply NoDup_app_remove_r in Hsorted. }
  rewrite List.map_map.
  rewrite (map_ext _ (fun ic => Map_get pool (fst ic))) by (now intros [i c]).
  rewrite <- (List.map_map fst (Map_get pool)).
  apply NoDup_map_in; [exact Hs|].
  intros i j Hi Hj E.
  assert (G : forall k, In k (List.map fst shown) ->
                exists e, Map_get pool k = Some e /\ Event.id e = k).
  { intros k Hin. apply in_map_iff in Hin as [[k' c] [<- Hin]]. simpl.
    apply firstn_In, sort_In in Hin. unfold cands, trending_candidates in Hin.
    apply filter_In in Hin as [_ Hok]. apply andb_prop in Hok as [_ Hhas].
    destruct (Map_get_has pool k' Hhas) as [e [G1 [_ G2]]]. eauto. }
  destruct (G i Hi) as [e1 [G1 <-]], (G j Hj) as [e2 [G2 <-]].
  congruence.
Qed.

Lemma trending_distinct_witness :
  List.NoDup
    (List.map evt
       (trending (scenario_events ++ scenario_events)
          (Some [("1", 2); ("2", 5); ("9", 1)]))).
Proof.
  apply trending_distinct. simpl.
  repeat constructor; simpl; intuition discriminate.
Defined.

(** ** Lists that are in order already *)

Lemma sort_fixed {A : Type} (cmp : A -> A -> JS.num) (l : list A) :
  StronglySorted (not_after cmp) l -> JS.sort cmp l = l.
Proof.
  induction 1 as [|x l Hs IH Hx]; simpl; [reflexivity|].
  rewrite IH. destruct l as [|y l]; [reflexivity|]. simpl.
  inversion Hx as [|? ? Hxy _]; subst. unfold not_after in Hxy.
  now rewrite Hxy.
Qed.

(** X12: sorting changes nothing when there is nothing to change: if the
    events that pass the filters already stand in the order of the chosen
    sort, the visible list is that list as it is. *)
Theorem filtered_keeps_order Date_getTime pool level sort q selectedTags savedIds :
  StronglySorted
    (match sort with
     | date_sort => date_le Date_getTime
     | trending_sort => trend_le Date_getTime savedIds
     end)
    (withSearch pool level q selectedTags) ->
  filtered Date_getTime pool level sort q selectedTags savedIds
  = withSearch pool level q selectedTags.
Proof.
  intros H. unfold filtered. destruct sort; apply sort_fixed.
  - eapply StronglySorted_impl; [|exact H].
    intros a b. apply by_saved_not_after.
  - eapply StronglySorted_impl; [|exact H].
    intros a b. apply by_date_not_after.
Qed.

Lemma filtered_keeps_order_witness :
  filtered (fun _ => Some 0) scenario_events "all" date_sort "" [] []
  = withSearch scenario_events "all" "" [].
Proof.
  apply (filtered_keeps_order (fun _ => Some 0) scenario_events "all"
           date_sort "" [] []).
  repeat constructor.
Defined.

(** ** Loading the events *)

Lemma visible_nil Date_getTime prefs st savedIds :
  visible Date_getTime [] prefs st savedIds = [].
Proof.
  unfold visible, filtered. rewrite basePool_empty. unfold withSearch.
  now destruct (Selection.sort st), (Selection.selectedTags st).
Qed.

Lemma heading_throws viewMode prefs :
  heading viewMode prefs = None
  <-> viewMode = personalized
      /\ exists p, prefs = Some p /\ UserPrefs.interests p = None.
Proof.
  unfold heading. destruct viewMode.
  - split; [discriminate|intros [H _]; discriminate].
  - destruct prefs as [p|].
    + destruct (UserPrefs.interests p) eqn:E.
      * split; [discriminate|]. intros [_ [p' [[= <-] H]]]. congruence.
      * split; [eauto|reflexivity].
    + split; [discriminate|]. intros [_ [p' [H _]]]. discriminate.
Qed.

(** X13: once the load has settled, the render throws exactly in the
    personalized view with preferences that have no interests; otherwise:
    after a load that failed with an error value the Feed has no event to
    show, the custom events included, whatever the selection, with the
    error card on and the "No matches" card off; after a load that failed
    with [undefined] or [null] it has no event to show either, no error
    card, and the "No matches" card on; after a successful load the
    events are the custom events followed by the file's, the error card
    is off and the "No matches" card is on exactly when the visible list
    is empty. *)
Theorem Feed_load_outcome Date_getTime custom r prefs st savedIds :
  let events := fst (Feed_load custom r) in
  let error := snd (Feed_load custom r) in
  (Feed_render Date_getTime events prefs st savedIds false error = None
   <-> Selection.viewMode st = personalized
       /\ exists p, prefs = Some p /\ UserPrefs.interests p = None)
  /\ match Feed_render Date_getTime events prefs st savedIds false error with
     | None => True
     | Some (h, cards, shown) =>
         heading (Selection.viewMode st) prefs = Some h
         /\ shown = visible Date_getTime events prefs st savedIds
         /\ match r with
            | Failed _ => shown = [] /\ cards = (false, true, false)
            | FailedNullish => shown = [] /\ cards = (false, false, true)
            | Loaded fileEvents =>
                events = (default [] custom ++ fileEvents)%list
                /\ cards
                   = (false, false,
                      match shown with [] => true | _ => false end)
            end
     end.
Proof.
  intros events error. subst events error. unfold Feed_render. split.
  - rewrite <- heading_throws.
    destruct (heading (Selection.viewMode st) prefs); split;
      try discriminate; reflexivity.
  - destruct (heading (Selection.viewMode st) prefs) as [h|]; [|exact I].
    split; [reflexivity|]. split; [reflexivity|].
    destruct r as [fileEvents|message|]; unfold Feed_load; cbn [fst snd].
    + split; [reflexivity|]. unfold Feed_cards. cbn [JS.truthy negb andb].
      reflexivity.
    + rewrite visible_nil. split; [reflexivity|]. unfold Feed_cards.
      destruct message as [[|c m]|]; reflexivity.
    + rewrite visible_nil. split; reflexivity.
Qed.

(** ** Unsaving on the Saved page *)

(** X14: the refresh after an unsave removes from the Saved list the events of
    the unsaved id and nothing else, the others staying in their order. *)
Theorem Saved_refresh all savedIds savedIds' i :
  (forall j, In j savedIds' <-> In j savedIds /\ j <> i) ->
  Saved_events all savedIds'
  = List.filter (fun e => negb (String.eqb (Event.id e) i))
      (Saved_events all savedIds).
Proof.
  intros H. unfold Saved_events.
  induction all as [|e l IH]; simpl; [reflexivity|].
  destruct (JS.arr_includes savedIds' (Event.id e)) eqn:E'.
  - apply arr_includes_In, H in E' as [E N].
    apply arr_includes_In in E. rewrite E. simpl.
    apply String.eqb_neq in N. rewrite N. simpl. now rewrite IH.
  - destruct (JS.arr_includes savedIds (Event.id e)) eqn:E; [|exact IH].
    simpl. destruct (String.eqb (Event.id e) i) eqn:N; [exact IH|].
    exfalso. apply String.eqb_neq in N. apply arr_includes_In in E.
    assert (In (Event.id e) savedIds') by (apply H; auto).
    apply arr_includes_In in H0. congruence.
Qed.

Lemma Saved_refresh_witness :
  Saved_events scenario_events ["2"]
  = List.filter (fun e => negb (String.eqb (Event.id e) "1"))
      (Saved_events scenario_events ["1"; "2"]).
Proof.
  apply (Saved_refresh scenario_events ["1"; "2"] ["2"] "1").
  intros j. simpl. split.
  - intros [<-|[]]. split; [auto|discriminate].
  - intros [[<-|[<-|[]]] N]; [contradiction|auto].
Defined.

(** ** The Onboarding form *)

Lemma trimEnd_idem s : JS.trimEnd (JS.trimEnd s) = JS.trimEnd s.
Proof.
  induction s as [|c s IH]; simpl; [reflexivity|].
  destruct (JS.trimEnd s) as [|d r] eqn:E.
  - destruct (JS.is_ws c) eqn:W; simpl; [reflexivity|now rewrite W].
  - change (JS.trimEnd (String c (String d r)))
      with (match JS.trimEnd (String d r) with
            | "" => if JS.is_ws c then "" else String c ""
            | r' => String c r'
            end).
    now rewrite IH.
Qed.

Lemma trimStart_trimEnd s :
  JS.trimStart (JS.trimEnd (JS.trimStart s)) = JS.trimEnd (JS.trimStart s).
Proof.
  assert (H : forall t, JS.trimStart t = t ->
                        JS.trimStart (JS.trimEnd t) = JS.trimEnd t).
  { intros [|c t] Ht; [reflexivity|]. simpl in *.
    destruct (JS.is_ws c) eqn:W.
    - exfalso. assert (L : (String.length (JS.trimStart t) <= String.length t)%nat).
      { clear. induction t as [|d t IH]; simpl; [lia|].
        destruct (JS.is_ws d); simpl; lia. }
      rewrite Ht in L. simpl in L. lia.
    - destruct (JS.trimEnd t); simpl; now rewrite W. }
  apply H. induction s as [|c s IH]; simpl; [reflexivity|].
  destruct (JS.is_ws c) eqn:W; [exact IH|]. simpl. now rewrite W.
Qed.

Lemma trim_idem s : JS.trim (JS.trim s) = JS.trim s.
Proof. unfold JS.trim. now rewrite trimStart_trimEnd, trimEnd_idem. Qed.

Lemma toggleInterest_ok tag f : Form_ok f -> Form_ok (toggleInterest tag f).
Proof.
  intros [L [N F]]. unfold toggleInterest, Form_ok.
  destruct (JS.arr_includes (Form.interests f) tag) eqn:E;
    [|destruct (MAX_INTERESTS <=? length (Form.interests f))%nat eqn:M];
    cbn [Form.interests Form.faculty].
  - split; [|split; [now apply List.NoDup_filter|exact F]].
    etransitivity; [apply List.filter_length_le|exact L].
  - auto.
  - apply Nat.leb_gt in M. split; [|split; [|exact F]].
    + rewrite List.length_app. simpl. lia.
    + apply Permutation_NoDup with (l := tag :: Form.interests f).
      * apply Permutation_cons_append.
      * constructor; [|exact N]. rewrite <- arr_includes_In. congruence.
Qed.

(** X15: interest chips: the form never holds more than 5 interests nor one
    twice; a click on a chip that is off while 5 are on changes no
    interest and sets the error message, every other click flips its
    interest and clears the message. *)
Theorem toggleInterest_spec tag f :
  Form_ok f ->
  Form_ok (toggleInterest tag f)
  /\ (JS.truthy (Form.error (toggleInterest tag f)) = true
      <-> ~ In tag (Form.interests f)
          /\ length (Form.interests f) = MAX_INTERESTS)
  /\ (if JS.truthy (Form.error (toggleInterest tag f))
      then Form.interests (toggleInterest tag f) = Form.interests f
      else forall t, In t (Form.interests (toggleInterest tag f))
                     <-> In t (toggleTag tag (Form.interests f))).
Proof.
  intros Hok. split; [now apply toggleInterest_ok|].
  destruct Hok as [L _]. unfold toggleInterest, toggleTag.
  destruct (JS.arr_includes (Form.interests f) tag) eqn:E;
    [|destruct (MAX_INTERESTS <=? length (Form.interests f))%nat eqn:M];
    cbn [Form.interests Form.error JS.truthy].
  - apply arr_includes_In in E. split; [|tauto].
    split; [discriminate|tauto].
  - assert (N : ~ In tag (Form.interests f))
      by (rewrite <- arr_includes_In; congruence).
    apply Nat.leb_le in M. split; [|reflexivity].
    split; [intros _; split; [exact N|lia]|reflexivity].
  - apply Nat.leb_gt in M. split; [|tauto].
    split; [discriminate|]. intros [_ H]. lia.
Qed.

Lemma toggleInterest_spec_witness :
  Form_ok (toggleInterest "ai" (Form_mount None)).
Proof.
  apply (toggleInterest_spec "ai" (Form_mount None)).
  split; [simpl; unfold MAX_INTERESTS; lia|]. split; [constructor|now left].
Defined.

Lemma Form_step_ok f a : Form_ok f -> Form_ok (fst (Form_step f a)).
Proof.
  intros Hok. destruct a; simpl; try exact Hok.
  - destruct (nth_error FACULTIES i) as [fac|] eqn:E; simpl; [|exact Hok].
    destruct Hok as [L [N _]]. split; [exact L|]. split; [exact N|].
    right. now apply nth_error_In with i.
  - now apply toggleInterest_ok.
  - split; [simpl; unfold MAX_INTERESTS; lia|]. split; [constructor|now left].
  - unfold handleSaveAndContinue. destruct (negb (valid f)); exact Hok.
Qed.

Lemma handleSaveAndContinue_payload f p :
  Form_ok f -> snd (handleSaveAndContinue f) = Some p -> payload_ok p.
Proof.
  intros [L [N F]]. unfold handleSaveAndContinue.
  destruct (valid f) eqn:V; simpl; [|discriminate].
  intros [= <-]. unfold valid in V.
  apply andb_prop in V as [V Vi]. apply andb_prop in V as [Vn Vf].
  apply Nat.ltb_lt in Vn. apply Nat.leb_le in Vi.
  unfold payload_ok. simpl. split; [|split; [apply trim_idem|split]].
  - intros E. rewrite E in Vn. simpl in Vn. lia.
  - exists (Form.faculty f). split; [reflexivity|].
    destruct F as [F|F]; [rewrite F in Vf; discriminate|exact F].
  - exists (Form.interests f). auto.
Qed.

Lemma Form_run_payloads f l p :
  Form_ok f -> In p (snd (Form_run f l)) -> payload_ok p.
Proof.
  revert f. induction l as [|a l IH]; intros f Hok; simpl; [contradiction|].
  destruct (Form_step f a) as [f1 saved] eqn:S.
  destruct (Form_run f1 l) as [f2 rest] eqn:R. simpl.
  assert (Hok1 : Form_ok f1).
  { pose proof (Form_step_ok f a Hok) as H. now rewrite S in H. }
  assert (Hrest : In p rest -> payload_ok p).
  { intros H. apply (IH f1 Hok1). now rewrite R. }
  destruct saved as [p0|]; [|exact Hrest].
  intros [<-|H]; [|now apply Hrest].
  destruct a; simpl in S; try (inversion S; fail).
  - destruct (nth_error FACULTIES i); inversion S.
  - apply (handleSaveAndContinue_payload f); [exact Hok|].
    now rewrite S.
Qed.

(** X16: whatever the user does on the form, every payload it saves has a
    non-empty name without white space around it, a faculty of the list,
    and between 2 and 5 interests, none twice, given that the
    preferences the form was opened with, if any, respect the same limits. *)
Theorem Onboarding_saves_valid_prefs existing actions p :
  Form_ok (Form_mount existing) ->
  In p (snd (Form_run (Form_mount existing) actions)) ->
  payload_ok p.
Proof. intros Hok. now apply Form_run_payloads. Qed.

Lemma Onboarding_saves_valid_prefs_witness :
  payload_ok (UserPrefs.mk "Sam" (Some "Science") (Some ["ai"; "web dev"])).
Proof.
  apply (Onboarding_saves_valid_prefs None
           [TypeName "  Sam "; Save; PickFaculty 2; ToggleInterest "ai";
            ToggleInterest "robotics"; ToggleInterest "web dev";
            ToggleInterest "robotics"; Save]).
  - split; [simpl; unfold MAX_INTERESTS; lia|]. split; [constructor|now left].
  - vm_compute. auto.
Defined.

(** ** The image of an event card *)

Section EventCardFacts.
Variable location_protocol : string.
Variable location_origin : string.
Variable URL_toString : string -> string -> option string.
Variable placeholder_svg : string.

Local Abbreviation normalizeUrl :=
  (normalizeUrl location_protocol location_origin URL_toString).
Local Abbreviation resolve_loop :=
  (resolve_loop location_protocol location_origin URL_toString).
Local Abbreviation resolveImageFromEvent :=
  (resolveImageFromEvent location_protocol location_origin URL_toString).

Lemma trimEnd_app a b :
  b <> "" -> JS.trimEnd b = b -> JS.trimEnd (a ++ b) = a ++ b.
Proof.
  intros Hb Eb. induction a as [|c a IH]; simpl; [exact Eb|].
  rewrite IH. destruct (a ++ b) eqn:E; [|reflexivity].
  destruct a; simpl in E; [contradiction|discriminate].
Qed.

Lemma trimEnd_trim s : JS.trimEnd (JS.trim s) = JS.trim s.
Proof. unfold JS.trim. apply trimEnd_idem. Qed.

Lemma is_absolute_head s :
  is_absolute s = true -> exists c r, s = String c r /\ JS.is_ws c = false.
Proof.
  destruct s as [|c r]; [discriminate|]. intros H. exists c, r.
  split; [reflexivity|].
  unfold is_absolute in H. simpl in H.
  destruct (JS.is_ws c) eqn:W; [|reflexivity].
  exfalso. revert W H.
  destruct c as [[] [] [] [] [] [] [] []]; vm_compute; intros; discriminate.
Qed.

(** A string that is absolute and ends a trim is its own trim. *)
Lemma trim_absolute a b :
  is_absolute (a ++ b) = true -> b <> "" -> JS.trimEnd b = b ->
  JS.trim (a ++ b) = a ++ b.
Proof.
  intros A Hb Eb. unfold JS.trim.
  destruct (is_absolute_head _ A) as [c [r [E W]]].
  assert (S : JS.trimStart (a ++ b) = a ++ b).
  { rewrite E. simpl. now rewrite W. }
  rewrite S. now apply trimEnd_app.
Qed.

Lemma normalizeUrl_fixed u :
  is_absolute u = true -> JS.trim u = u -> normalizeUrl u = u.
Proof.
  intros A T.
  unfold normalizeUrl. now rewrite T, A.
Qed.

Lemma scheme_absolute proto rest :
  proto = "http:" \/ proto = "https:" ->
  is_absolute (proto ++ "//" ++ rest) = true.
Proof.
  intros H. unfold is_absolute. rewrite !toLowerCase_app.
  destruct H as [->| ->].
  - replace (String.prefix "http://" (JS.toLowerCase "http:" ++ JS.toLowerCase "//"
                                        ++ JS.toLowerCase rest)) with true;
      [reflexivity|].
    symmetry. apply prefix_app. now exists (JS.toLowerCase rest).
  - replace (String.prefix "https://" (JS.toLowerCase "https:" ++ JS.toLowerCase "//"
                                         ++ JS.toLowerCase rest)) with true;
      [now rewrite orb_true_r|].
    symmetry. apply prefix_app. now exists (JS.toLowerCase rest).
Qed.

(** X17: normalizing twice is normalizing once, on a page served over http or
    https whose URL constructor returns absolute, trimmed URLs; and an
    absolute URL comes back trimmed and otherwise untouched. *)
Theorem normalizeUrl_idempotent host url :
  location_protocol = "http:" \/ location_protocol = "https:" ->
  location_origin = location_protocol ++ "//" ++ host ->
  (forall t u, URL_toString t location_origin = Some u ->
               is_absolute u = true /\ JS.trim u = u) ->
  normalizeUrl (normalizeUrl url) = normalizeUrl url
  /\ (is_absolute (JS.trim url) = true -> normalizeUrl url = JS.trim url).
Proof.
  intros Hp Ho Hu.
  assert (Abs : is_absolute (JS.trim url) = true -> normalizeUrl url = JS.trim url).
  { intros A. unfold normalizeUrl. now rewrite A. }
  split; [|exact Abs].
  destruct (is_absolute (JS.trim url)) eqn:A.
  - rewrite (Abs eq_refl). apply normalizeUrl_fixed; [|apply trim_idem].
    exact A.
  - destruct (String.prefix "//" (JS.trim url)) eqn:P2.
    + assert (R : normalizeUrl url = location_protocol ++ JS.trim url).
      { unfold normalizeUrl. now rewrite A, P2. }
      rewrite R. apply prefix_app in P2 as [post E].
      assert (Ne : JS.trim url <> "") by (rewrite E; discriminate).
      apply normalizeUrl_fixed.
      * rewrite E. now apply scheme_absolute.
      * apply trim_absolute; [|exact Ne|apply trimEnd_trim].
        rewrite E. now apply scheme_absolute.
    + destruct (String.prefix "/" (JS.trim url)) eqn:P1.
      * assert (R : normalizeUrl url = location_origin ++ JS.trim url).
        { unfold normalizeUrl. now rewrite A, P2, P1. }
        rewrite R. apply prefix_app in P1 as [post E].
        assert (Ne : JS.trim url <> "") by (rewrite E; discriminate).
        assert (AA : is_absolute (location_origin ++ JS.trim url) = true).
        { rewrite Ho, !app_assoc'. now apply scheme_absolute. }
        apply normalizeUrl_fixed; [exact AA|].
        apply trim_absolute; [exact AA|exact Ne|apply trimEnd_trim].
      * destruct (URL_toString (JS.trim url) location_origin) as [u|] eqn:U.
        -- assert (R : normalizeUrl url = u).
           { unfold normalizeUrl. now rewrite A, P2, P1, U. }
           rewrite R. destruct (Hu _ _ U) as [Au Tu].
           now apply normalizeUrl_fixed.
        -- assert (R : normalizeUrl url = url).
           { unfold normalizeUrl. now rewrite A, P2, P1, U. }
           now rewrite !R.
Qed.

Lemma resolve_loop_usable cs :
  match resolve_loop cs with
  | Some u =>
      exists pre c post s,
        cs = (pre ++ c :: post)%list
        /\ Forall (fun c' => usable c' = None) pre
        /\ usable c = Some s
        /\ JS.truthy (JS.trim s) = true
        /\ u = normalizeUrl s
  | None => Forall (fun c => usable c = None) cs
  end.
Proof.
  induction cs as [|c cs IH]; [constructor|].
  assert (Skip : usable c = None ->
                 resolve_loop (c :: cs) = resolve_loop cs ->
                 match resolve_loop (c :: cs) with
                 | Some u =>
                     exists pre c0 post s,
                       (c :: cs) = (pre ++ c0 :: post)%list
                       /\ Forall (fun c' => usable c' = None) pre
                       /\ usable c0 = Some s
                       /\ JS.truthy (JS.trim s) = true
                       /\ u = normalizeUrl s
                 | None => Forall (fun c => usable c = None) (c :: cs)
                 end).
  { intros Hc E. rewrite E. destruct (resolve_loop cs) as [u|].
    - destruct IH as [pre [c0 [post [s [E1 [F [U [T N]]]]]]]].
      exists (c :: pre), c0, post, s. rewrite E1.
      split; [reflexivity|]. split; [now constructor|auto].
    - now constructor. }
  assert (Hit : forall s, usable c = Some s -> JS.truthy (JS.trim s) = true ->
                 resolve_loop (c :: cs) = Some (normalizeUrl s) ->
                 match resolve_loop (c :: cs) with
                 | Some u =>
                     exists pre c0 post s,
                       (c :: cs) = (pre ++ c0 :: post)%list
                       /\ Forall (fun c' => usable c' = None) pre
                       /\ usable c0 = Some s
                       /\ JS.truthy (JS.trim s) = true
                       /\ u = normalizeUrl s
                 | None => Forall (fun c => usable c = None) (c :: cs)
                 end).
  { intros s U T E. rewrite E. exists [], c, cs, s. repeat split; auto. }
  destruct c as [|s|url src|].
  - now apply Skip.
  -     destruct (JS.truthy (JS.trim s)) eqn:T.
    + apply (Hit s); [simpl; now rewrite T|exact T|].
      simpl. rewrite T. destruct s; [discriminate|reflexivity].
    + apply Skip; [simpl; now rewrite T|].
      simpl. rewrite T. now destruct (JS.truthy s).
  - destruct (nonblank_string url) as [s|] eqn:U.
    + apply (Hit s); [simpl; now rewrite U| |simpl; now rewrite U].
      destruct url; simpl in U; try discriminate.
      destruct (JS.truthy (JS.trim s0)) eqn:T; [|discriminate].
      now inversion U; subst.
    + destruct (nonblank_string src) as [s|] eqn:S.
      * apply (Hit s); [simpl; now rewrite U, S| |simpl; now rewrite U, S].
        destruct src; simpl in S; try discriminate.
        destruct (JS.truthy (JS.trim s0)) eqn:T; [|discriminate].
        now inversion S; subst.
      * apply Skip; simpl; now rewrite U, S.
  - now apply Skip.
Qed.

(** X18: the image of a card is taken from the first image field, in the
    order of the code, that holds a non-blank string or an object whose
    [url] or else [src] is a non-blank string, and is that string
    normalized; without such a field nothing is resolved; the image
    source of the card, with its placeholder fallback, is never empty, and
    after a failed image load it is the placeholder. *)
Theorem resolveImageFromEvent_spec e :
  match resolveImageFromEvent (Some e) with
  | Some u =>
      exists pre c post s,
        candidates e = (pre ++ c :: post)%list
        /\ Forall (fun c' => usable c' = None) pre
        /\ usable c = Some s
        /\ JS.truthy (JS.trim s) = true
        /\ u = normalizeUrl s
  | None => Forall (fun c => usable c = None) (candidates e)
  end
  /\ JS.truthy
       (imgSrc_of location_protocol location_origin URL_toString
          placeholder_svg (Some e)) = true
  /\ JS.truthy
       (imgSrc_of location_protocol location_origin URL_toString
          placeholder_svg None) = true
  /\ (forall src, handleImgError placeholder_svg src = PLACEHOLDER placeholder_svg).
Proof.
  split; [apply resolve_loop_usable|].
  unfold imgSrc_of. split; [|split; [reflexivity|]].
  - destruct (resolveImageFromEvent (Some e)) as [u|]; [|reflexivity].
    destruct (JS.truthy u) eqn:T; [exact T|reflexivity].
  - intros src. unfold handleImgError.
    destruct (String.eqb src (PLACEHOLDER placeholder_svg)) eqn:E;
      [now apply String.eqb_eq in E|reflexivity].
Qed.

End EventCardFacts.

Lemma normalizeUrl_idempotent_witness :
  normalizeUrl "https:" "https://events.ubc.ca"
    (fun _ _ => Some "https://events.ubc.ca/img/a.png")
    (normalizeUrl "https:" "https://events.ubc.ca"
       (fun _ _ => Some "https://events.ubc.ca/img/a.png") "  /img/a.png ")
  = normalizeUrl "https:" "https://events.ubc.ca"
      (fun _ _ => Some "https://events.ubc.ca/img/a.png") "  /img/a.png ".
Proof.
  apply (normalizeUrl_idempotent "https:" "https://events.ubc.ca"
           (fun _ _ => Some "https://events.ubc.ca/img/a.png")
           "events.ubc.ca" "  /img/a.png ").
  - now right.
  - reflexivity.
  - intros t u [= <-]. split; reflexivity.
Defined.

Lemma personalized_narrows_witness :
  In (Event.mk "1" (Some "AI Night") None None None None (Some "All")
        (Some ["ai"]) None)
     (filtered (fun _ => None)
        (basePool
           [Event.mk "1" (Some "AI Night") None None None None (Some "All")
              (Some ["ai"]) None]
           (Some science_ai_prefs) all)
        "all" date_sort "night" [] []).
Proof.
  apply (personalized_narrows (fun _ => None)
           [Event.mk "1" (Some "AI Night") None None None None (Some "All")
              (Some ["ai"]) None]
           (Some science_ai_prefs) "all" date_sort "night" [] []).
  vm_compute. auto.
Defined.
